(** * Chunked upload sessions and the chunk-merge engine

    A shallow embedding of [services/fileUpload.js] (class
    [FileUploadService]) and of the [FileUpload] mongoose model
    ([models/FileUpload.js]).

    - JS numbers that hold chunk counts and indices are integers of [Z].
    - The MongoDB collection of [FileUpload] documents is a finite map from
      [fileId] (a unique index) to documents; the key stands for both the
      [fileId] and the [_id] of a document.
    - The staging area [uploadDir/<fileId>/chunk-<i>] is a finite map from
      [fileId] to a directory, itself a finite map from chunk index to bytes.
    - The GridFS bucket is the pair of its two collections: the chunk
      documents written so far for a files id, and the files documents
      (an object can be opened for reading only once its files document
      exists).
    - [async] functions are computations over the whole world that either
      return or throw, and keep every side effect made before a throw.
    - Callbacks handed to [setImmediate] are queued in the world and run
      later, one at a time.
    - Failures of the operating system and of the bucket are chosen by an
      explicit [Faults] argument.  Calls to the database are total.
    - Dates ([expiresAt], [updatedAt], ...) and the floating point virtual
      [progress] are left out: no operation modelled here reads them. *)

From Stdlib Require Import ZArith String Ascii List Lia.
From stdpp Require Import base option gmap strings pretty list fin_maps.

Local Open Scope string_scope.
Local Open Scope Z_scope.

(** ** Errors (utils/errors.js and the built-in classes) *)

Inductive ErrorName :=
| ValidationError | NotFoundError | UploadError | FileSystemError
| ReferenceError | MongoAPIError | PlainError.

(** For the classes of [utils/errors.js] the [message] is the first
    constructor argument. *)
Record Error := mkError { name : ErrorName; message : string }.

Definition ErrorName_eqb (a b : ErrorName) : bool :=
  match a, b with
  | ValidationError, ValidationError | NotFoundError, NotFoundError
  | UploadError, UploadError | FileSystemError, FileSystemError
  | ReferenceError, ReferenceError | MongoAPIError, MongoAPIError
  | PlainError, PlainError => true
  | _, _ => false
  end.

(** ** The FileUpload document *)

Inductive Status :=
| pending | uploading | completed | failed | processing | cancelled.

Definition Status_eqb (a b : Status) : bool :=
  match a, b with
  | pending, pending | uploading, uploading | completed, completed
  | failed, failed | processing, processing | cancelled, cancelled => true
  | _, _ => false
  end.

Abbreviation Buffer := (list Byte.byte).
Abbreviation ObjectId := nat.

Module FileUpload.

Record t := mk {
  originalName : string;
  mimeType : string;
  size : Z;
  uploadedChunks : Z;
  totalChunks : Z;
  status : Status;
  gridFsId : option ObjectId;
  uploadedBy : string;
  errorMessage : option string;
  retryCount : Z
}.

Definition set_status (s : Status) (d : t) : t :=
  mk (originalName d) (mimeType d) (size d) (uploadedChunks d)
     (totalChunks d) s (gridFsId d) (uploadedBy d) (errorMessage d)
     (retryCount d).

Definition set_uploadedChunks (n : Z) (d : t) : t :=
  mk (originalName d) (mimeType d) (size d) n
     (totalChunks d) (status d) (gridFsId d) (uploadedBy d) (errorMessage d)
     (retryCount d).

Definition set_gridFsId (g : ObjectId) (d : t) : t :=
  mk (originalName d) (mimeType d) (size d) (uploadedChunks d)
     (totalChunks d) (status d) (Some g) (uploadedBy d) (errorMessage d)
     (retryCount d).

Definition set_errorMessage (m : string) (d : t) : t :=
  mk (originalName d) (mimeType d) (size d) (uploadedChunks d)
     (totalChunks d) (status d) (gridFsId d) (uploadedBy d) (Some m)
     (retryCount d).

Definition inc_retryCount (k : Z) (d : t) : t :=
  mk (originalName d) (mimeType d) (size d) (uploadedChunks d)
     (totalChunks d) (status d) (gridFsId d) (uploadedBy d) (errorMessage d)
     (retryCount d + k).

(** [fileUploadSchema.methods.isChunkUploaded] *)
Definition isChunkUploaded (d : t) (chunkIndex : Z) : bool :=
  chunkIndex <? uploadedChunks d.

(** [fileUploadSchema.methods.getMissingChunks] *)
Definition getMissingChunks (d : t) : list Z :=
  filter (fun i => uploadedChunks d ≤ i) (seqZ 0 (totalChunks d)).
End FileUpload.

(** ** GridFS bucket, logger, deferred callbacks, the world *)

(** A files document of the bucket: the name and the [metadata.fileId]
    given to [openUploadStream]. *)
Record GridFile := mkGridFile { filename : string; metaFileId : string }.

(** A [GridFSBucketWriteStream]: its files id and whether [end()] was
    called on it. *)
Record WriteStream := mkWriteStream {
  ws_id : ObjectId; ws_file : GridFile; streamEnd : bool
}.

Inductive LogEntry :=
| logUpload_entry (fileId action : string) (meta : list (string * Z))
| logUploadError_entry (operation : string) (error : Error) (fileId : string).

Inductive Immediate :=
| MergeChunksTask (fileId : string)
| CleanupChunksTask (fileId : string).

Record World := mkWorld {
  db : gmap string FileUpload.t;
  uploadDir : gmap string (gmap Z Buffer);
  gridChunks : gmap ObjectId Buffer;
  gridFiles : gmap ObjectId GridFile;
  nextObjectId : ObjectId;
  immediates : list Immediate;
  log : list LogEntry
}.

Definition emptyWorld : World := mkWorld ∅ ∅ ∅ ∅ O [] [].

Definition set_db (f : gmap string FileUpload.t → gmap string FileUpload.t)
    (w : World) : World :=
  mkWorld (f (db w)) (uploadDir w) (gridChunks w) (gridFiles w)
          (nextObjectId w) (immediates w) (log w).

Definition set_uploadDir
    (f : gmap string (gmap Z Buffer) → gmap string (gmap Z Buffer))
    (w : World) : World :=
  mkWorld (db w) (f (uploadDir w)) (gridChunks w) (gridFiles w)
          (nextObjectId w) (immediates w) (log w).

Definition set_gridChunks (f : gmap ObjectId Buffer → gmap ObjectId Buffer)
    (w : World) : World :=
  mkWorld (db w) (uploadDir w) (f (gridChunks w)) (gridFiles w)
          (nextObjectId w) (immediates w) (log w).

Definition set_gridFiles (f : gmap ObjectId GridFile → gmap ObjectId GridFile)
    (w : World) : World :=
  mkWorld (db w) (uploadDir w) (gridChunks w) (f (gridFiles w))
          (nextObjectId w) (immediates w) (log w).

Definition set_nextObjectId (n : ObjectId) (w : World) : World :=
  mkWorld (db w) (uploadDir w) (gridChunks w) (gridFiles w)
          n (immediates w) (log w).

Definition set_immediates (f : list Immediate → list Immediate)
    (w : World) : World :=
  mkWorld (db w) (uploadDir w) (gridChunks w) (gridFiles w)
          (nextObjectId w) (f (immediates w)) (log w).

Definition add_log (e : LogEntry) (w : World) : World :=
  mkWorld (db w) (uploadDir w) (gridChunks w) (gridFiles w)
          (nextObjectId w) (immediates w) (log w ++ [e]).

(** The bytes a download of object [id] yields: the object must have a
    files document. *)
Definition readBlob (id : ObjectId) (w : World) : option Buffer :=
  match gridFiles w !! id with
  | Some _ => Some (default [] (gridChunks w !! id))
  | None => None
  end.

(** What the environment does in one call: which file system calls fail
    (with a code other than ENOENT), whether the bucket fails to finish a
    stream, and whether mongoose is connected. *)
Record Faults := mkFaults {
  writeFile_fails : bool;
  unlink_fails : bool;
  rm_fails : bool;
  finish_fails : bool;
  connected : bool
}.

Definition noFaults : Faults := mkFaults false false false false true.

(** ** Asynchronous computations *)

Inductive Completion (A : Type) :=
| Return (a : A)
| Throw (e : Error).
Arguments Return {A} a.
Arguments Throw {A} e.

Definition Async (A : Type) : Type := World → Completion A * World.

Definition ret {A} (a : A) : Async A := fun w => (Return a, w).
Definition throw {A} (e : Error) : Async A := fun w => (Throw e, w).

Definition bind {A B} (m : Async A) (k : A → Async B) : Async B :=
  fun w =>
    match m w with
    | (Return a, w') => k a w'
    | (Throw e, w') => (Throw e, w')
    end.

(** [try { body } catch (e) { handler e }] *)
Definition try_catch {A} (body : Async A) (handler : Error → Async A)
    : Async A :=
  fun w =>
    match body w with
    | (Return a, w') => (Return a, w')
    | (Throw e, w') => handler e w'
    end.

Definition modify (f : World → World) : Async unit :=
  fun w => (Return tt, f w).

Definition get {A} (f : World → A) : Async A :=
  fun w => (Return (f w), w).

Notation "'await' x ':=' m 'in' k" := (bind m (fun x => k))
  (at level 10, x name, m at level 100, k at level 200).
Notation "m ;;; k" := (bind m (fun _ => k))
  (at level 90, right associativity).

Fixpoint forM_ {A} (l : list A) (body : A → Async unit) : Async unit :=
  match l with
  | [] => ret tt
  | x :: l' => body x ;;; forM_ l' body
  end.

(** ** Logger *)

Definition logUpload (fileId action : string) (meta : list (string * Z))
    : Async unit :=
  modify (add_log (logUpload_entry fileId action meta)).

Definition logUploadError (operation : string) (error : Error)
    (fileId : string) : Async unit :=
  modify (add_log (logUploadError_entry operation error fileId)).

(** ** The FileUpload model: queries *)

(** [fileUploadSchema.statics.findByFileId] *)
Definition findByFileId (fileId : string) : Async (option FileUpload.t) :=
  get (fun w => db w !! fileId).

(** [FileUpload.findOneAndUpdate(filter, update, { new })] for a filter
    made of the document's key ([fileId] or [_id]) and a condition on the
    document.  Query middleware only: the [pre('validate')] and
    [pre('save')] hooks of the schema, which are document middleware, do
    not run, and neither do the schema validators. *)
Definition findOneAndUpdate (fileId : string)
    (condition : FileUpload.t → bool) (update : FileUpload.t → FileUpload.t)
    (returnNew : bool) : Async (option FileUpload.t) :=
  fun w =>
    match db w !! fileId with
    | Some d =>
        if condition d
        then (Return (Some (if returnNew then update d else d)),
              set_db (insert fileId (update d)) w)
        else (Return None, w)
    | None => (Return None, w)
    end.

(** [FileUpload.deleteOne({ fileId })] *)
Definition deleteOne (fileId : string) : Async unit :=
  modify (set_db (delete fileId)).

(** [fileUploadSchema.methods.markAsProcessing], on the document [_id] *)
Definition markAsProcessing (_id : string) : Async (option FileUpload.t) :=
  findOneAndUpdate _id (fun _ => true)
    (FileUpload.set_status processing) true.

(** [fileUploadSchema.methods.markAsCompleted] *)
Definition markAsCompleted (_id : string) (gridFsId : ObjectId)
    : Async (option FileUpload.t) :=
  findOneAndUpdate _id (fun _ => true)
    (fun d => FileUpload.set_gridFsId gridFsId
                (FileUpload.set_status completed d)) true.

(** [fileUploadSchema.methods.markAsCancelled] *)
Definition markAsCancelled (_id : string) : Async (option FileUpload.t) :=
  findOneAndUpdate _id (fun _ => true)
    (FileUpload.set_status cancelled) true.

(** ** The bucket *)

(** [bucket.openUploadStream(name, { metadata })]: a fresh files id. *)
Definition openUploadStream (file : GridFile) : Async WriteStream :=
  fun w =>
    (Return (mkWriteStream (nextObjectId w) file false),
     set_nextObjectId (S (nextObjectId w)) w).

(** [uploadStream.write(chunk)]: the bytes join the chunk documents of
    the stream's files id. *)
Definition write (s : WriteStream) (chunk : Buffer) : Async unit :=
  modify (set_gridChunks (fun c =>
            <[ws_id s := (default [] (c !! ws_id s) ++ chunk)%list]> c)).

(** [uploadStream.end()] followed by waiting for ['finish'] or ['error']:
    on success the files document is written. *)
Definition end_and_finish (io : Faults) (s : WriteStream) : Async unit :=
  if finish_fails io
  then throw (mkError PlainError "GridFS write failed")
  else modify (set_gridFiles (insert (ws_id s) (ws_file s))).

(** [uploadStream.abort()]: refused once [end()] was called, otherwise the
    chunk documents written so far are deleted. *)
Definition abort (s : WriteStream) : Async unit :=
  if streamEnd s
  then throw (mkError MongoAPIError
                "Cannot abort a stream that has already completed")
  else modify (set_gridChunks (delete (ws_id s))).

(** [bucket.delete(id)] *)
Definition bucket_delete (id : ObjectId) : Async unit :=
  modify (fun w => set_gridChunks (delete id) (set_gridFiles (delete id) w)).

(** ** Helper methods of the service *)

Definition chunkDir (fileId : string) (w : World) : gmap Z Buffer :=
  default ∅ (uploadDir w !! fileId).

(** [saveChunk]: the directory is created when missing, then the chunk
    file is written (or the write fails). *)
Definition saveChunk (io : Faults) (fileId : string) (chunkIndex : Z)
    (chunkData : Buffer) : Async unit :=
  modify (set_uploadDir (fun fs =>
            match fs !! fileId with
            | Some _ => fs
            | None => <[fileId := ∅]> fs
            end)) ;;;
  if writeFile_fails io
  then throw (mkError FileSystemError "Failed to save chunk: EIO")
  else modify (fun w =>
         set_uploadDir
           (insert fileId (<[chunkIndex := chunkData]> (chunkDir fileId w)))
           w).

(** [deleteChunk]: a missing file (ENOENT) is ignored; for any other
    failure the handler reads [chunkPath], which is declared inside the
    [try] block, and so throws a ReferenceError. *)
Definition deleteChunk (io : Faults) (fileId : string) (chunkIndex : Z)
    : Async unit :=
  fun w =>
    match uploadDir w !! fileId with
    | Some dir =>
        match dir !! chunkIndex with
        | Some _ =>
            if unlink_fails io
            then (Throw (mkError ReferenceError "chunkPath is not defined"), w)
            else (Return tt,
                  set_uploadDir (insert fileId (delete chunkIndex dir)) w)
        | None => (Return tt, w)
        end
    | None => (Return tt, w)
    end.

(** [cleanupChunks]: [fs.rm(chunkDir, { recursive, force })]; on a failure
    the handler reads [chunkDir], declared inside the [try] block, and so
    throws a ReferenceError. *)
Definition cleanupChunks (io : Faults) (fileId : string) : Async unit :=
  if rm_fails io
  then throw (mkError ReferenceError "chunkDir is not defined")
  else modify (set_uploadDir (delete fileId)) ;;;
       logUpload fileId "chunks cleaned up" [].

(** [verifyChunks]: every [chunk-i], [0 <= i < totalChunks], must be
    accessible. *)
Definition verifyChunks (fileId : string) (totalChunks : Z) : Async unit :=
  fun w =>
    if forallb (fun i => bool_decide (is_Some (chunkDir fileId w !! i)))
               (seqZ 0 totalChunks)
    then (Return tt, w)
    else (Throw (mkError UploadError
                   "Some chunks are missing. Please re-upload."), w).

Definition is_lower_hex (c : ascii) : bool :=
  let n := nat_of_ascii c in
  ((48 <=? n)%nat && (n <=? 57)%nat) || ((97 <=? n)%nat && (n <=? 102)%nat).

(** The test [/^[a-f0-9]{32}$/] *)
Definition fileId_wellformed (fileId : string) : bool :=
  (String.length fileId =? 32)%nat
  && forallb is_lower_hex (list_ascii_of_string fileId).

(** [validateFileId] *)
Definition validateFileId (fileId : string) : Async unit :=
  if fileId_wellformed fileId then ret tt
  else throw (mkError ValidationError "Invalid file ID format").

(** [validateChunkIndex] *)
Definition validateChunkIndex (chunkIndex totalChunks : Z) : Async unit :=
  if (chunkIndex <? 0) || (chunkIndex >=? totalChunks)
  then throw (mkError ValidationError "Invalid chunk index")
  else ret tt.

(** ** [initializeUpload] *)

(** The part of [config.upload] the service reads. *)
Record Config := mkConfig {
  totalSizeLimit : Z;
  allowedMimeTypes : option (list string)
}.

Record FileData := mkFileData {
  fd_fileName : string;
  fd_fileSize : Z;
  fd_mimeType : string;
  fd_totalChunks : Z
}.

(** [validateFileData] *)
Definition validateFileData (cfg : Config) (fileData : FileData)
    : Async unit :=
  if String.eqb (fd_fileName fileData) ""
  then throw (mkError ValidationError "Invalid filename")
  else if fd_fileSize fileData <=? 0
  then throw (mkError ValidationError "Invalid file size")
  else if totalSizeLimit cfg <? fd_fileSize fileData
  then throw (mkError ValidationError "File size exceeds maximum limit")
  else if fd_totalChunks fileData <=? 0
  then throw (mkError ValidationError "Invalid total chunks")
  else ret tt.

Definition slash : ascii := "/"%char.

Fixpoint dropWhile {A} (p : A → bool) (l : list A) : list A :=
  match l with
  | [] => []
  | x :: l' => if p x then dropWhile p l' else l
  end.

Fixpoint takeWhile {A} (p : A → bool) (l : list A) : list A :=
  match l with
  | [] => []
  | x :: l' => if p x then x :: takeWhile p l' else []
  end.

(** [path.basename] (POSIX): trailing slashes are dropped, then what
    follows the last slash is kept. *)
Definition basename (p : string) : string :=
  let is_slash c := Ascii.eqb c slash in
  let r := rev (list_ascii_of_string p) in
  let r := dropWhile is_slash r in
  string_of_list_ascii (rev (takeWhile (fun c => negb (is_slash c)) r)).

(** The class [[a-zA-Z0-9._-]] *)
Definition safe_char (c : ascii) : bool :=
  let n := nat_of_ascii c in
  ((97 <=? n)%nat && (n <=? 122)%nat) || ((65 <=? n)%nat && (n <=? 90)%nat)
  || ((48 <=? n)%nat && (n <=? 57)%nat)
  || (n =? 46)%nat || (n =? 95)%nat || (n =? 45)%nat.

(** [sanitizeFileName] (a string is its sequence of code units) *)
Definition sanitizeFileName (fileName : string) : Async string :=
  let sanitized :=
    string_of_list_ascii
      (map (fun c => if safe_char c then c else "_"%char)
           (list_ascii_of_string (basename fileName))) in
  if (String.length sanitized =? 0)%nat
  then throw (mkError ValidationError "Invalid filename")
  else ret sanitized.

(** The validators of the schema that can fail for a new document. *)
Definition schema_rejects (cfg : Config) (fileId : string) (d : FileUpload.t)
    : bool :=
  negb (fileId_wellformed fileId)
  || (255 <? String.length (FileUpload.originalName d))%nat
  || (100 <? String.length (FileUpload.uploadedBy d))%nat
  || match allowedMimeTypes cfg with
     | Some l => negb (existsb (String.eqb (FileUpload.mimeType d)) l)
     | None => false
     end.
Arguments schema_rejects : simpl never.

(** [fileUpload.save()] of a new document: validation, then the insert
    under the unique index. *)
Definition save (cfg : Config) (fileId : string) (d : FileUpload.t)
    : Async unit :=
  fun w =>
    if schema_rejects cfg fileId d
    then (Throw (mkError ValidationError "FileUpload validation failed"), w)
    else match db w !! fileId with
         | Some _ =>
             (Throw (mkError PlainError "E11000 duplicate key error"), w)
         | None => (Return tt, set_db (insert fileId d) w)
         end.

(** [initializeUpload]; [generated] is the value of
    [crypto.randomBytes(16).toString('hex')]. *)
Definition initializeUpload (cfg : Config) (generated : string)
    (fileData : FileData) (uploadedBy : string) : Async string :=
  try_catch
    (validateFileData cfg fileData ;;;
     await sanitizedFileName := sanitizeFileName (fd_fileName fileData) in
     let fileId := generated in
     let fileUpload :=
       FileUpload.mk sanitizedFileName
         (if String.eqb (fd_mimeType fileData) ""
          then "application/octet-stream" else fd_mimeType fileData)
         (fd_fileSize fileData) 0 (fd_totalChunks fileData) pending None
         uploadedBy None 0 in
     save cfg fileId fileUpload ;;;
     logUpload fileId "initialized"
       [("fileSize", fd_fileSize fileData);
        ("totalChunks", fd_totalChunks fileData)] ;;;
     ret fileId)
    (fun error =>
       logUploadError "initialization" error "" ;;;
       if ErrorName_eqb (name error) ValidationError
       then throw (mkError ValidationError "Invalid file data")
       else throw (mkError UploadError
                     ("Failed to initialize upload: " ++ message error))).

(** ** [uploadChunk] *)

Record ChunkResult := mkChunkResult {
  res_chunkIndex : Z;
  res_uploadedChunks : Z;
  res_totalChunks : Z
}.

Definition uploadChunk (io : Faults) (fileId : string) (chunkIndex : Z)
    (chunkData : Buffer) (totalChunks : Z) : Async ChunkResult :=
  try_catch
    (validateFileId fileId ;;;
     validateChunkIndex chunkIndex totalChunks ;;;
     await found := findByFileId fileId in
     match found with
     | None => throw (mkError NotFoundError "Upload session")
     | Some fileUpload =>
         if Status_eqb (FileUpload.status fileUpload) completed
         then throw (mkError UploadError "Upload already completed")
         else if Status_eqb (FileUpload.status fileUpload) cancelled
         then throw (mkError UploadError "Upload has been cancelled")
         else if chunkIndex >=? totalChunks
         then throw (mkError UploadError "Chunk index exceeds total chunks")
         else if FileUpload.isChunkUploaded fileUpload chunkIndex
         then
           logUpload fileId "chunk already uploaded"
             [("chunkIndex", chunkIndex)] ;;;
           ret (mkChunkResult chunkIndex
                  (FileUpload.uploadedChunks fileUpload)
                  (FileUpload.totalChunks fileUpload))
         else
           saveChunk io fileId chunkIndex chunkData ;;;
           await updated :=
             findOneAndUpdate fileId
               (fun d => FileUpload.uploadedChunks d <=? chunkIndex)
               (fun d => FileUpload.set_status uploading
                           (FileUpload.set_uploadedChunks (chunkIndex + 1) d))
               true in
           let currentUpload := default fileUpload updated in
           logUpload fileId "chunk uploaded"
             [("chunkIndex", chunkIndex);
              ("uploadedChunks", FileUpload.uploadedChunks currentUpload);
              ("totalChunks", FileUpload.totalChunks currentUpload)] ;;;
           ret (mkChunkResult chunkIndex
                  (FileUpload.uploadedChunks currentUpload)
                  (FileUpload.totalChunks currentUpload))
     end)
    (fun error =>
       logUploadError "chunk upload" error fileId ;;;
       try_catch (deleteChunk io fileId chunkIndex)
         (fun cleanupError =>
            logUploadError "chunk cleanup" cleanupError fileId) ;;;
       throw error).

(** ** [mergeChunks] *)

(** The [catch] block of [mergeChunks]; [uploadStream] is the value of the
    local variable when the error was thrown. *)
Definition mergeFailure {A} (fileId : string)
    (uploadStream : option WriteStream) (error : Error) : Async A :=
  logUploadError "merge chunks" error fileId ;;;
  match uploadStream with
  | Some s =>
      try_catch (abort s)
        (fun abortError =>
           logUploadError "abort upload stream" abortError fileId)
  | None => ret tt
  end ;;;
  try_catch
    (await _ := findOneAndUpdate fileId (fun _ => true)
                  (fun d => FileUpload.set_errorMessage (message error)
                              (FileUpload.set_status failed d))
                  false in
     ret tt)
    (fun updateError =>
       logUploadError "update failure status" updateError fileId) ;;;
  throw error.

(** The body of the merge loop for [chunk-i]: the file is read and its
    bytes written to the stream; the result is [stats.size]. *)
Definition mergeOne (fileId : string) (totalChunks : Z) (s : WriteStream)
    (i : Z) : Async Z :=
  await file := get (fun w => chunkDir fileId w !! i) in
  match file with
  | Some bytes =>
      write s bytes ;;;
      logUpload fileId "chunk merged"
        [("chunkIndex", i + 1); ("totalChunks", totalChunks)] ;;;
      ret (Z.of_nat (length bytes))
  | None =>
      throw (mkError FileSystemError
               ("Failed to read chunk " ++ pretty i
                ++ ": ENOENT: no such file or directory"))
  end.

(** [for (let i = 0; i < fileUpload.totalChunks; i++)], over the indices
    still to visit, with the running [totalBytesWritten]. *)
Fixpoint mergeLoop (fileId : string) (totalChunks : Z) (s : WriteStream)
    (indices : list Z) (totalBytesWritten : Z) : Async Z :=
  match indices with
  | [] => ret totalBytesWritten
  | i :: rest =>
      await size := mergeOne fileId totalChunks s i in
      mergeLoop fileId totalChunks s rest (totalBytesWritten + size)
  end.

Definition mergeChunks (io : Faults) (fileId : string) : Async unit :=
  await opened :=
    try_catch
      (await found := findByFileId fileId in
       match found with
       | None => throw (mkError PlainError "File upload record not found")
       | Some fileUpload =>
           if Status_eqb (FileUpload.status fileUpload) completed
           then logUpload fileId "already merged" [] ;;; ret None
           else
             await dir := get (fun w => uploadDir w !! fileId) in
             match dir with
             | None =>
                 throw (mkError FileSystemError "Chunk directory not found")
             | Some _ =>
                 if connected io
                 then
                   await uploadStream :=
                     openUploadStream
                       (mkGridFile (FileUpload.originalName fileUpload)
                                   fileId) in
                   ret (Some (fileUpload, uploadStream))
                 else throw (mkError PlainError "Database not connected")
             end
       end)
      (mergeFailure fileId None) in
  match opened with
  | None => ret tt
  | Some (fileUpload, uploadStream) =>
      await totalBytesWritten :=
        try_catch
          (mergeLoop fileId (FileUpload.totalChunks fileUpload) uploadStream
             (seqZ 0 (FileUpload.totalChunks fileUpload)) 0)
          (mergeFailure fileId (Some uploadStream)) in
      let ended :=
        mkWriteStream (ws_id uploadStream) (ws_file uploadStream) true in
      try_catch
        (end_and_finish io ended ;;;
         (if 1024 <? Z.abs (totalBytesWritten - FileUpload.size fileUpload)
          then logUpload fileId "size mismatch"
                 [("expected", FileUpload.size fileUpload);
                  ("actual", totalBytesWritten)]
          else ret tt) ;;;
         await _ := markAsCompleted fileId (ws_id uploadStream) in
         cleanupChunks io fileId ;;;
         logUpload fileId "merge completed" [("size", totalBytesWritten)])
        (mergeFailure fileId (Some ended))
  end.

(** ** [completeUpload], [cancelUpload], [deleteFile] *)

Definition setImmediate (task : Immediate) : Async unit :=
  modify (set_immediates (fun q => (q ++ [task])%list)).

Record CompleteResult := mkCompleteResult {
  c_message : string;
  c_status : Status
}.

Definition completeUpload (fileId : string) : Async CompleteResult :=
  try_catch
    (validateFileId fileId ;;;
     await found := findByFileId fileId in
     match found with
     | None => throw (mkError NotFoundError "Upload session")
     | Some fileUpload =>
         if Status_eqb (FileUpload.status fileUpload) completed
         then ret (mkCompleteResult "File already processed" completed)
         else if negb (FileUpload.uploadedChunks fileUpload
                       =? FileUpload.totalChunks fileUpload)
         then throw (mkError UploadError
                 ("Incomplete upload: "
                  ++ pretty (FileUpload.uploadedChunks fileUpload) ++ "/"
                  ++ pretty (FileUpload.totalChunks fileUpload)
                  ++ " chunks received"))
         else
           verifyChunks fileId (FileUpload.totalChunks fileUpload) ;;;
           await _ := markAsProcessing fileId in
           setImmediate (MergeChunksTask fileId) ;;;
           logUpload fileId "marked for processing" [] ;;;
           ret (mkCompleteResult "Upload completed, processing file..."
                  processing)
     end)
    (fun error =>
       logUploadError "complete upload" error fileId ;;; throw error).

(** The callback [completeUpload] hands to [setImmediate]. *)
Definition mergeTask (io : Faults) (fileId : string) : Async unit :=
  try_catch (mergeChunks io fileId)
    (fun err =>
       logUploadError "merge chunks" err fileId ;;;
       try_catch
         (await _ := findOneAndUpdate fileId (fun _ => true)
                       (fun d => FileUpload.inc_retryCount 1
                                   (FileUpload.set_errorMessage (message err)
                                      (FileUpload.set_status failed d)))
                       false in
          ret tt)
         (fun updateError =>
            logUploadError "update failed status" updateError fileId)).

Definition cancelUpload (fileId : string) : Async unit :=
  try_catch
    (validateFileId fileId ;;;
     await found := findByFileId fileId in
     match found with
     | None => throw (mkError NotFoundError "Upload session")
     | Some fileUpload =>
         if Status_eqb (FileUpload.status fileUpload) completed
         then throw (mkError UploadError "Cannot cancel completed upload")
         else
           await _ := markAsCancelled fileId in
           setImmediate (CleanupChunksTask fileId) ;;;
           logUpload fileId "cancelled" []
     end)
    (fun error =>
       logUploadError "cancel upload" error fileId ;;; throw error).

(** The callback [cancelUpload] hands to [setImmediate]. *)
Definition cleanupTask (io : Faults) (fileId : string) : Async unit :=
  try_catch (cleanupChunks io fileId)
    (fun error => logUploadError "cleanup cancelled upload" error fileId).

Definition deleteFile (io : Faults) (fileId : string) : Async unit :=
  try_catch
    (validateFileId fileId ;;;
     await found := findByFileId fileId in
     match found with
     | None => throw (mkError NotFoundError "File")
     | Some fileUpload =>
         match FileUpload.gridFsId fileUpload with
         | Some id =>
             if connected io
             then bucket_delete id ;;; logUpload fileId "deleted from GridFS" []
             else ret tt
         | None => ret tt
         end ;;;
         cleanupChunks io fileId ;;;
         deleteOne fileId ;;;
         logUpload fileId "deleted" []
     end)
    (fun error =>
       logUploadError "delete file" error fileId ;;; throw error).

(** One turn of the loops of [cleanupExpiredUploads] and
    [cleanupStaleUploads] for an upload the query selected. *)
Definition sweepOne (io : Faults) (fileId : string) : Async unit :=
  try_catch (cleanupChunks io fileId ;;; deleteOne fileId)
    (fun error => logUploadError "cleanup expired upload" error fileId).

(** ** The system as a transition system *)

(** What can happen next: a call of the service, the janitor reaching an
    upload, the TTL index of MongoDB removing an expired document, or the
    event loop running one of the queued callbacks. *)
Inductive Op :=
| Initialize (generated : string) (fileData : FileData) (uploadedBy : string)
| SubmitChunk (io : Faults) (fileId : string) (chunkIndex : Z)
    (chunkData : Buffer) (totalChunks : Z)
| Complete (fileId : string)
| Cancel (fileId : string)
| Delete (io : Faults) (fileId : string)
| Sweep (io : Faults) (fileId : string)
| Expire (fileId : string)
| RunImmediate (io : Faults) (k : nat).

Definition runTask (io : Faults) (task : Immediate) : Async unit :=
  match task with
  | MergeChunksTask fileId => mergeTask io fileId
  | CleanupChunksTask fileId => cleanupTask io fileId
  end.

Definition runImmediate (io : Faults) (k : nat) : Async unit :=
  fun w =>
    match immediates w !! k with
    | Some task => runTask io task (set_immediates (delete k) w)
    | None => (Return tt, w)
    end.

Definition exec (cfg : Config) (op : Op) (w : World) : World :=
  match op with
  | Initialize generated fileData uploadedBy =>
      snd (initializeUpload cfg generated fileData uploadedBy w)
  | SubmitChunk io fileId chunkIndex chunkData totalChunks =>
      snd (uploadChunk io fileId chunkIndex chunkData totalChunks w)
  | Complete fileId => snd (completeUpload fileId w)
  | Cancel fileId => snd (cancelUpload fileId w)
  | Delete io fileId => snd (deleteFile io fileId w)
  | Sweep io fileId => snd (sweepOne io fileId w)
  | Expire fileId => snd (deleteOne fileId w)
  | RunImmediate io k => snd (runImmediate io k w)
  end.

Definition task_fileId (task : Immediate) : string :=
  match task with
  | MergeChunksTask fileId | CleanupChunksTask fileId => fileId
  end.

(** [crypto.randomBytes] does not repeat itself: a generated id is not the
    id of a document, of a staging directory or of a queued callback. *)
Definition unused (fileId : string) (w : World) : bool :=
  bool_decide (db w !! fileId = None)
  && bool_decide (uploadDir w !! fileId = None)
  && forallb (fun task => negb (String.eqb (task_fileId task) fileId))
             (immediates w).

Definition admissible (op : Op) (w : World) : bool :=
  match op with
  | Initialize generated _ _ => unused generated w
  | _ => true
  end.

Inductive reachable (cfg : Config) : World → Prop :=
| reachable_empty : reachable cfg emptyWorld
| reachable_exec w op :
    reachable cfg w → admissible op w = true → reachable cfg (exec cfg op w).

Definition run (cfg : Config) (ops : list Op) (w : World) : World :=
  foldl (fun w op => exec cfg op w) w ops.

Fixpoint admissible_run (cfg : Config) (ops : list Op) (w : World) : bool :=
  match ops with
  | [] => true
  | op :: ops' => admissible op w && admissible_run cfg ops' (exec cfg op w)
  end.

(** ** Scenarios *)

(** Limits of the deployment described in the repository (5GB, any type). *)
Definition cfg0 : Config := mkConfig 5368709120 None.

Definition idA : string := "0123456789abcdef0123456789abcdef".

Definition bytesA : Buffer := [Byte.xaa; Byte.xaa].
Definition bytesB : Buffer := [Byte.xbb].
Definition bytesC : Buffer := [Byte.xcc; Byte.xcc; Byte.xcc].

Definition open3 : Op := Initialize idA (mkFileData "a.bin" 6 "" 3) "anonymous".
Definition open1 : Op := Initialize idA (mkFileData "a.bin" 2 "" 1) "anonymous".

(** ** Definitions used in the statements *)

(** What a step does to the collection at one key. *)
Definition db_changes (fileId : string)
    (R : FileUpload.t → FileUpload.t → Prop) (w w' : World) : Prop :=
  db w' = db w
  ∨ ∃ d d', db w !! fileId = Some d ∧ db w' = <[fileId := d']> (db w) ∧ R d d'.

(** What holds of every stored document: its key is a well-formed id, its
    counters are in range from below, and once it is completed, or while a
    merge of it is queued, every chunk index was covered by the counter. *)
Definition doc_ok (w : World) (fileId : string) (d : FileUpload.t) : Prop :=
  fileId_wellformed fileId = true
  ∧ 0 ≤ FileUpload.uploadedChunks d
  ∧ 1 ≤ FileUpload.totalChunks d
  ∧ (FileUpload.status d = completed ∨ MergeChunksTask fileId ∈ immediates w
     → FileUpload.totalChunks d ≤ FileUpload.uploadedChunks d).

Definition Inv (w : World) : Prop :=
  ∀ fileId d, db w !! fileId = Some d → doc_ok w fileId d.

(** The bucket between two worlds: files ids are handed out in increasing
    order, and an id not handed out yet stays without documents. *)
Definition bucket_frame (w w' : World) : Prop :=
  (nextObjectId w ≤ nextObjectId w')%nat
  ∧ ∀ id, (nextObjectId w' ≤ id)%nat →
          (gridChunks w !! id = None → gridChunks w' !! id = None)
          ∧ (gridFiles w !! id = None → gridFiles w' !! id = None).

(** No document of the bucket carries an id that was not handed out. *)
Definition fresh_ids (w : World) : Prop :=
  ∀ id, (nextObjectId w ≤ id)%nat →
        gridChunks w !! id = None ∧ gridFiles w !! id = None.

(** The line the merge loop logs after [chunk-i]. *)
Definition chunk_merged_entry (fileId : string) (totalChunks i : Z)
    : LogEntry :=
  logUpload_entry fileId "chunk merged"
    [("chunkIndex", i + 1); ("totalChunks", totalChunks)].

Definition total_length (chunks : list Buffer) : Z :=
  Z.of_nat (length (concat chunks)).

(** Status, [uploadedChunks], [totalChunks] and [retryCount] of a
    session. *)
Definition view (fileId : string) (w : World)
    : option (Status * Z * Z * Z) :=
  (fun d => (FileUpload.status d, FileUpload.uploadedChunks d,
             FileUpload.totalChunks d, FileUpload.retryCount d))
  <$> db w !! fileId.

Definition submit (i : Z) (bytes : Buffer) (totalChunks : Z) : Op :=
  SubmitChunk noFaults idA i bytes totalChunks.

(** [fs.rm] fails, everything else works. *)
Definition rmFails : Faults := mkFaults false false true false true.

Definition uploaded3 : list Op :=
  [open3; submit 0 bytesA 3; submit 1 bytesB 3; submit 2 bytesC 3].

Definition doc3 (s : Status) (uploaded : Z) (g : option ObjectId)
    : FileUpload.t :=
  FileUpload.mk "a.bin" "application/octet-stream" 6 uploaded 3 s g
    "anonymous" None 0.

Definition doc1 (s : Status) : FileUpload.t :=
  FileUpload.mk "a.bin" "application/octet-stream" 2 1 1 s None
    "anonymous" None 0.

(** All three chunks staged and the merge queued. *)
Definition w_processing : World :=
  run cfg0 (uploaded3 ++ [Complete idA]) emptyWorld.

(** The same, after a malformed submission (index 1 of 1) whose error path
    deleted the staged [chunk-1]. *)
Definition w_chunk_lost : World :=
  exec cfg0 (submit 1 bytesB 1) w_processing.

(** The same, after the merge ran without faults. *)
Definition w_completed : World :=
  run cfg0 (uploaded3 ++ [Complete idA; RunImmediate noFaults 0]) emptyWorld.

(** One chunk of three submitted. *)
Definition w_partial : World :=
  run cfg0 [open3; submit 0 bytesA 3] emptyWorld.

(** One chunk of one staged, the merge queued. *)
Definition w_inflight : World :=
  run cfg0 [open1; submit 0 bytesA 1; Complete idA] emptyWorld.


(** ** [getUploadStatus] *)

(** The fields of the answer that the documents of this development carry
    (the dates and the virtual [progress] are left out). *)
Record StatusView := mkStatusView {
  sv_fileId : string;
  sv_originalName : string;
  sv_size : Z;
  sv_status : Status;
  sv_uploadedChunks : Z;
  sv_totalChunks : Z;
  sv_errorMessage : option string;
  sv_uploadedBy : string;
  sv_mimeType : string
}.

Definition getUploadStatus (fileId : string) : Async StatusView :=
  try_catch
    (validateFileId fileId ;;;
     await found := findByFileId fileId in
     match found with
     | None => throw (mkError NotFoundError "Upload session")
     | Some fileUpload =>
         ret (mkStatusView fileId
                (FileUpload.originalName fileUpload)
                (FileUpload.size fileUpload)
                (FileUpload.status fileUpload)
                (FileUpload.uploadedChunks fileUpload)
                (FileUpload.totalChunks fileUpload)
                (FileUpload.errorMessage fileUpload)
                (FileUpload.uploadedBy fileUpload)
                (FileUpload.mimeType fileUpload))
     end)
    (fun error => logUploadError "get status" error fileId ;;; throw error).

(** ** The janitor: [cleanupExpiredUploads], [cleanupStaleUploads],
    [cleanupOrphanedChunks] *)

(** [fileUploadSchema.statics.findExpired]: the documents whose
    [expiresAt] lies before [now].  The dates of the documents are given
    beside the world, as a function of the [fileId]. *)
Definition findExpired (expiresAt : string → Z) (now : Z) (w : World)
    : list string :=
  map fst
    (filter (fun kd => expiresAt (fst kd) < now) (map_to_list (db w))).

Definition stale_status (s : Status) : bool :=
  Status_eqb s pending || Status_eqb s uploading.

(** [fileUploadSchema.statics.findStale]: pending and uploading documents
    whose [updatedAt] lies before [now - hours * 60 * 60 * 1000]. *)
Definition findStale (updatedAt : string → Z) (now hours : Z) (w : World)
    : list string :=
  map fst
    (filter (fun kd => stale_status (FileUpload.status (snd kd)) = true
                       ∧ updatedAt (fst kd) < now - hours * 60 * 60 * 1000)
            (map_to_list (db w))).

(** The loop of [cleanupExpiredUploads] and [cleanupStaleUploads] over the
    uploads the query returned, with the running [cleanedCount];
    [operation] is the label under which a failure is logged and [io]
    gives the faults met for each upload. *)
Fixpoint sweepLoop (operation : string) (io : string → Faults)
    (uploads : list string) (cleanedCount : Z) : Async Z :=
  match uploads with
  | [] => ret cleanedCount
  | fileId :: rest =>
      await n :=
        try_catch
          (cleanupChunks (io fileId) fileId ;;;
           deleteOne fileId ;;;
           ret (cleanedCount + 1))
          (fun error =>
             logUploadError operation error fileId ;;; ret cleanedCount) in
      sweepLoop operation io rest n
  end.

(** [cleanupExpiredUploads] (the line of [logCleanup] is not recorded) *)
Definition cleanupExpiredUploads (io : string → Faults)
    (expiresAt : string → Z) (now : Z) : Async Z :=
  await expiredUploads := get (findExpired expiresAt now) in
  sweepLoop "cleanup expired upload" io expiredUploads 0.

(** [cleanupStaleUploads] (the line of [logCleanup] is not recorded) *)
Definition cleanupStaleUploads (io : string → Faults)
    (updatedAt : string → Z) (now hours : Z) : Async Z :=
  await staleUploads := get (findStale updatedAt now hours) in
  sweepLoop "cleanup stale upload" io staleUploads 0.

(** The loop of [cleanupOrphanedChunks] over the names [fs.readdir]
    returned: a name without a document is checked with [fs.stat] (every
    entry of the staging area is a directory) and removed with [fs.rm]. *)
Fixpoint orphanLoop (io : string → Faults) (validFileIds : gset string)
    (uploadDirs : list string) (cleanedCount : Z) : Async Z :=
  match uploadDirs with
  | [] => ret cleanedCount
  | dir :: rest =>
      if bool_decide (dir ∈ validFileIds)
      then orphanLoop io validFileIds rest cleanedCount
      else
        await n :=
          try_catch
            (await stats := get (fun w => uploadDir w !! dir) in
             match stats with
             | None =>
                 throw (mkError PlainError
                          "ENOENT: no such file or directory")
             | Some _ =>
                 if rm_fails (io dir)
                 then throw (mkError PlainError "EACCES: permission denied")
                 else modify (set_uploadDir (delete dir)) ;;;
                      ret (cleanedCount + 1)
             end)
            (fun error =>
               logUploadError "cleanup orphaned directory" error dir ;;;
               ret cleanedCount) in
        orphanLoop io validFileIds rest n
  end.

(** [cleanupOrphanedChunks] (the line of [logCleanup] is not recorded) *)
Definition cleanupOrphanedChunks (io : string → Faults) : Async Z :=
  await uploadDirs := get (fun w => map fst (map_to_list (uploadDir w))) in
  await validFileIds := get (fun w => dom (db w)) in
  orphanLoop io validFileIds uploadDirs 0.

(** ** Statements about one session *)

(** The session an operation is about, if any. *)
Definition target (op : Op) (w : World) : option string :=
  match op with
  | Initialize generated _ _ => Some generated
  | SubmitChunk _ fileId _ _ _ | Complete fileId | Cancel fileId
  | Delete _ fileId | Sweep _ fileId | Expire fileId => Some fileId
  | RunImmediate _ k => task_fileId <$> immediates w !! k
  end.

(** A computation that leaves the documents and the staged chunks of
    every session but [fileId] as they are. *)
Definition isolated {A} (fileId : string) (m : Async A) : Prop :=
  ∀ w g, g ≠ fileId →
    db (snd (m w)) !! g = db w !! g
    ∧ uploadDir (snd (m w)) !! g = uploadDir w !! g.

(** Every character of a string is a slash. *)
Definition only_slashes (s : string) : bool :=
  forallb (fun c => Ascii.eqb c slash) (list_ascii_of_string s).


(** ** More scenarios *)

Definition idB : string := "fedcba9876543210fedcba9876543210".

(** All three chunks of session [idA] staged, completion not yet asked. *)
Definition w_uploaded : World := run cfg0 uploaded3 emptyWorld.

(** Session [idA] completed, and a second session [idB] with one chunk of
    two staged. *)
Definition w_two : World :=
  run cfg0 [Initialize idB (mkFileData "b.bin" 4 "" 2) "anonymous";
            SubmitChunk noFaults idB 0 bytesB 2] w_completed.

(** The same faults for every upload. *)
Definition everywhere (io : Faults) : string → Faults := fun _ => io.


(** * Properties *)

Lemma Status_eqb_eq a b : Status_eqb a b = true ↔ a = b.
Proof. destruct a, b; simpl; split; congruence. Qed.

(** ** Reasoning about computations *)

Lemma Status_eqb_neq a b : Status_eqb a b = false ↔ a ≠ b.
Proof. destruct a, b; simpl; split; congruence. Qed.

Ltac unfold_async :=
  unfold bind, try_catch, ret, throw, modify, get, logUpload, logUploadError,
    findByFileId, findOneAndUpdate, deleteOne, markAsProcessing,
    markAsCompleted, markAsCancelled, setImmediate, validateFileId,
    validateChunkIndex in *.

Ltac step_async :=
  repeat (simpl in *; unfold_async; simpl in *; try case_match;
          simplify_map_eq/=).

Ltac status_facts :=
  repeat match goal with
  | H : Status_eqb _ _ = true |- _ => apply Status_eqb_eq in H
  | H : Status_eqb _ _ = false |- _ => apply Status_eqb_neq in H
  end.

Lemma saveChunk_frame io fileId chunkIndex chunkData w :
  let w' := snd (saveChunk io fileId chunkIndex chunkData w) in
  db w' = db w ∧ immediates w' = immediates w
  ∧ gridChunks w' = gridChunks w ∧ gridFiles w' = gridFiles w
  ∧ nextObjectId w' = nextObjectId w.
Proof. unfold saveChunk. step_async; auto. Qed.

Lemma deleteChunk_frame io fileId chunkIndex w :
  let w' := snd (deleteChunk io fileId chunkIndex w) in
  db w' = db w ∧ immediates w' = immediates w
  ∧ gridChunks w' = gridChunks w ∧ gridFiles w' = gridFiles w
  ∧ nextObjectId w' = nextObjectId w.
Proof. unfold deleteChunk. step_async; auto. Qed.

Lemma uploadChunk_db io fileId chunkIndex chunkData totalChunks w :
  let w' := snd (uploadChunk io fileId chunkIndex chunkData totalChunks w) in
  immediates w' = immediates w
  ∧ gridChunks w' = gridChunks w ∧ gridFiles w' = gridFiles w
  ∧ nextObjectId w' = nextObjectId w
  ∧ db_changes fileId
      (fun d d' =>
         FileUpload.status d ≠ completed ∧ FileUpload.status d ≠ cancelled
         ∧ FileUpload.uploadedChunks d ≤ chunkIndex
         ∧ d' = FileUpload.set_status uploading
                  (FileUpload.set_uploadedChunks (chunkIndex + 1) d))
      w w'.
Proof.
  unfold uploadChunk, db_changes, saveChunk, deleteChunk,
    FileUpload.isChunkUploaded.
  step_async; status_facts; repeat split; auto.
  right. eexists _, _. repeat split; eauto. lia.
Qed.

(** The merge loop touches the chunk documents of the bucket and the log,
    nothing else. *)
Lemma mergeLoop_world fileId totalChunks s indices acc w :
  ∃ r g l,
    mergeLoop fileId totalChunks s indices acc w
    = (r, mkWorld (db w) (uploadDir w) g (gridFiles w) (nextObjectId w)
                  (immediates w) l)
    ∧ ∀ id, id ≠ ws_id s → g !! id = gridChunks w !! id.
Proof.
  revert acc w. induction indices as [|i rest IH]; intros acc w.
  - destruct w. by eexists _, _, _.
  - simpl. unfold bind, mergeOne, get, bind.
    destruct (chunkDir fileId w !! i) as [bytes|] eqn:Hfile.
    + unfold write, logUpload, modify, ret. simpl.
      match goal with
      | |- context [mergeLoop _ _ _ _ ?a ?w1] =>
          destruct (IH a w1) as (r & g & l & -> & Hg)
      end.
      simpl in *. eexists _, _, _. split; [done|].
      intros id Hid. by rewrite Hg, lookup_insert_ne.
    + unfold throw. destruct w. by eexists _, _, _.
Qed.

Ltac merge_loop_world :=
  match goal with
  | |- context [mergeLoop ?f ?t ?s ?i ?a ?w1] =>
      let r := fresh "r" in
      let g := fresh "g" in
      let l := fresh "l" in
      let H := fresh "Hloop" in
      let Hg := fresh "Hchunks" in
      destruct (mergeLoop_world f t s i a w1) as (r & g & l & H & Hg);
      rewrite H; clear H
  | H0 : context [mergeLoop ?f ?t ?s ?i ?a ?w1] |- _ =>
      let r := fresh "r" in
      let g := fresh "g" in
      let l := fresh "l" in
      let H := fresh "Hloop" in
      let Hg := fresh "Hchunks" in
      destruct (mergeLoop_world f t s i a w1) as (r & g & l & H & Hg);
      rewrite H in H0; clear H
  end.

Ltac step_merge :=
  repeat (simpl in *; unfold_async; simpl in *; try merge_loop_world;
          try case_match; simplify_map_eq/=).

Ltac solve_db_changes :=
  first
    [ by left
    | right; eexists _, _; split; [ eassumption || reflexivity |];
      split; [ rewrite ?insert_insert_eq; reflexivity |];
      repeat split; auto; lia ].

Ltac solve_bucket_frame :=
  split; [ simpl; lia |];
  let id := fresh "id" in
  let Hid := fresh "Hid" in
  intros id Hid; simpl in *;
  rewrite ?lookup_delete_None, ?lookup_insert_None;
  repeat match goal with
  | H : ∀ id, id ≠ _ → _ !! id = _ |- _ => rewrite (H id) by lia; clear H
  end;
  rewrite ?lookup_delete_None, ?lookup_insert_None;
  repeat split; auto; intros; repeat split; auto; lia.

Lemma mergeTask_db io fileId w :
  let w' := snd (mergeTask io fileId w) in
  immediates w' = immediates w
  ∧ bucket_frame w w'
  ∧ db_changes fileId
      (fun d d' =>
         FileUpload.status d ≠ completed
         ∧ FileUpload.totalChunks d' = FileUpload.totalChunks d
         ∧ FileUpload.uploadedChunks d' = FileUpload.uploadedChunks d)
      w w'.
Proof.
  unfold mergeTask, mergeChunks, mergeFailure, db_changes, bucket_frame,
    openUploadStream, end_and_finish, abort, cleanupChunks.
  step_merge.
  all: status_facts; (split; [reflexivity|]).
  all: split; [solve_bucket_frame | solve_db_changes].
Qed.

Lemma cleanupTask_db io fileId w :
  let w' := snd (cleanupTask io fileId w) in
  immediates w' = immediates w ∧ db w' = db w.
Proof. unfold cleanupTask, cleanupChunks. by step_async. Qed.

Lemma completeUpload_db fileId w :
  let w' := snd (completeUpload fileId w) in
  (immediates w' = immediates w ∧ db w' = db w)
  ∨ ∃ d, db w !! fileId = Some d
         ∧ FileUpload.uploadedChunks d = FileUpload.totalChunks d
         ∧ immediates w' = (immediates w ++ [MergeChunksTask fileId])%list
         ∧ db w' = <[fileId := FileUpload.set_status processing d]> (db w).
Proof.
  unfold completeUpload, verifyChunks.
  step_async; auto.
  right. eexists. repeat split; eauto. lia.
Qed.

Lemma cancelUpload_db fileId w :
  let w' := snd (cancelUpload fileId w) in
  (immediates w' = immediates w ∧ db w' = db w)
  ∨ ∃ d, db w !! fileId = Some d
         ∧ FileUpload.status d ≠ completed
         ∧ immediates w' = (immediates w ++ [CleanupChunksTask fileId])%list
         ∧ db w' = <[fileId := FileUpload.set_status cancelled d]> (db w).
Proof.
  unfold cancelUpload.
  step_async; status_facts; auto.
  right. eexists. repeat split; eauto.
Qed.

Lemma deleteFile_db io fileId w :
  let w' := snd (deleteFile io fileId w) in
  immediates w' = immediates w
  ∧ (db w' = db w ∨ db w' = delete fileId (db w)).
Proof.
  unfold deleteFile, cleanupChunks, bucket_delete.
  step_async; auto.
Qed.

Lemma sweepOne_db io fileId w :
  let w' := snd (sweepOne io fileId w) in
  immediates w' = immediates w
  ∧ (db w' = db w ∨ db w' = delete fileId (db w)).
Proof.
  unfold sweepOne, cleanupChunks.
  step_async; auto.
Qed.

Lemma schema_accepts_wellformed cfg fileId d :
  schema_rejects cfg fileId d = false → fileId_wellformed fileId = true.
Proof.
  unfold schema_rejects. intros H.
  repeat (apply orb_false_iff in H as [H _]).
  by apply negb_false_iff in H.
Qed.

Lemma initializeUpload_db cfg generated fileData uploadedBy w :
  let w' := snd (initializeUpload cfg generated fileData uploadedBy w) in
  immediates w' = immediates w
  ∧ (db w' = db w
     ∨ ∃ d, db w !! generated = None
            ∧ fileId_wellformed generated = true
            ∧ FileUpload.uploadedChunks d = 0
            ∧ 1 ≤ FileUpload.totalChunks d
            ∧ FileUpload.status d = pending
            ∧ db w' = <[generated := d]> (db w)).
Proof.
  unfold initializeUpload, validateFileData, sanitizeFileName, save.
  step_async; auto.
  all: split; [reflexivity|].
  all: right; eexists; repeat split;
    eauto using schema_accepts_wellformed; simpl; lia.
Qed.

(** ** Invariants of the reachable worlds *)

Lemma unused_spec fileId w :
  unused fileId w = true →
  db w !! fileId = None ∧ MergeChunksTask fileId ∉ immediates w.
Proof.
  unfold unused. rewrite !andb_true_iff, !bool_decide_eq_true, forallb_forall.
  intros [[Hdb _] Hq]. split; [done|].
  intros Hin. apply list_elem_of_In, Hq in Hin. simpl in Hin.
  by rewrite String.eqb_refl in Hin.
Qed.

Lemma doc_ok_queue w w' fileId d :
  (∀ task, task ∈ immediates w' → task ∈ immediates w) →
  doc_ok w fileId d → doc_ok w' fileId d.
Proof.
  intros Hsub (? & ? & ? & Himp). repeat split; auto.
  intros [?|?]; auto.
Qed.

Lemma Inv_exec cfg op w :
  Inv w → admissible op w = true → Inv (exec cfg op w).
Proof.
  intros HI Hadm. destruct op; simpl in *.
  - destruct (initializeUpload_db cfg generated fileData uploadedBy w)
      as [Hq [Hdb|(d & Hnone & Hwf & Hu & Ht & Hs & Hdb)]];
      intros f d' Hf; unfold doc_ok; rewrite Hq, Hdb in *.
    + by apply HI.
    + apply unused_spec in Hadm as [_ Hnq].
      destruct (decide (f = generated)) as [->|Hne]; simplify_map_eq.
      * repeat split; try lia; auto.
        intros [?|?]; [congruence|done].
      * by apply HI.
  - destruct (uploadChunk_db io fileId chunkIndex chunkData totalChunks w)
      as (Hq & _ & _ & _ & [Hdb|(d & d' & Hd & Hdb & Hs1 & Hs2 & Hle & ->)]);
      intros f d'' Hf; unfold doc_ok; rewrite Hq, Hdb in *.
    + by apply HI.
    + destruct (decide (f = fileId)) as [->|Hne]; simplify_map_eq.
      * destruct (HI _ _ Hd) as (? & ? & ? & Himp). simpl.
        repeat split; auto; try lia.
        intros [?|Hin]; [congruence|]. specialize (Himp (or_intror Hin)). lia.
      * by apply HI.
  - destruct (completeUpload_db fileId w)
      as [[Hq Hdb]|(d & Hd & Heq & Hq & Hdb)];
      intros f d'' Hf; unfold doc_ok; rewrite Hq, Hdb in *.
    + by apply HI.
    + destruct (decide (f = fileId)) as [->|Hne]; simplify_map_eq.
      * destruct (HI _ _ Hd) as (? & ? & ? & Himp). simpl.
        repeat split; auto; lia.
      * destruct (HI _ _ Hf) as (? & ? & ? & Himp).
        repeat split; auto.
        intros [?|Hin]; auto. apply Himp. right.
        apply elem_of_app in Hin as [?|Hin]; [done|].
        apply list_elem_of_singleton in Hin. congruence.
  - destruct (cancelUpload_db fileId w)
      as [[Hq Hdb]|(d & Hd & Hne & Hq & Hdb)];
      intros f d'' Hf; unfold doc_ok; rewrite Hq, Hdb in *.
    + by apply HI.
    + assert (Hsub : MergeChunksTask f
                       ∈ (immediates w ++ [CleanupChunksTask fileId])%list
                     → MergeChunksTask f ∈ immediates w).
      { intros Hin. apply elem_of_app in Hin as [?|Hin]; [done|].
        apply list_elem_of_singleton in Hin. congruence. }
      destruct (decide (f = fileId)) as [->|Hne']; simplify_map_eq.
      * destruct (HI _ _ Hd) as (? & ? & ? & Himp). simpl.
        repeat split; auto.
        intros [?|Hin]; [congruence|]. auto.
      * destruct (HI _ _ Hf) as (? & ? & ? & Himp).
        repeat split; auto. intros [?|Hin]; auto.
  - destruct (deleteFile_db io fileId w) as [Hq [Hdb|Hdb]];
      intros f d'' Hf; unfold doc_ok; rewrite Hq, Hdb in *.
    + by apply HI.
    + apply lookup_delete_Some in Hf as [_ Hf]. by apply HI.
  - destruct (sweepOne_db io fileId w) as [Hq [Hdb|Hdb]];
      intros f d'' Hf; unfold doc_ok; rewrite Hq, Hdb in *.
    + by apply HI.
    + apply lookup_delete_Some in Hf as [_ Hf]. by apply HI.
  - intros f d Hf. simpl in Hf. apply lookup_delete_Some in Hf as [_ Hf].
    by apply HI.
  - unfold runImmediate.
    destruct (immediates w !! k) as [task|] eqn:Hk; [|done].
    assert (Hsub : ∀ t, t ∈ delete k (immediates w) → t ∈ immediates w).
    { intros t. apply list_elem_of_delete_inv. }
    set (w0 := set_immediates (delete k) w).
    assert (HI0 : ∀ f d, db w0 !! f = Some d →
              fileId_wellformed f = true
              ∧ 0 ≤ FileUpload.uploadedChunks d
              ∧ 1 ≤ FileUpload.totalChunks d
              ∧ (FileUpload.status d = completed
                 ∨ MergeChunksTask f ∈ immediates w
                 → FileUpload.totalChunks d ≤ FileUpload.uploadedChunks d)).
    { intros f d Hf. by apply HI. }
    destruct task as [fileId|fileId]; simpl.
    + destruct (mergeTask_db io fileId w0)
        as (Hq & _ & [Hdb|(d & d' & Hd & Hdb & Hs & Ht & Hu)]);
        intros f d'' Hf; unfold doc_ok; rewrite Hq, Hdb in *.
      * destruct (HI0 _ _ Hf) as (? & ? & ? & Himp).
        repeat split; auto. intros [?|Hin]; auto.
      * destruct (decide (f = fileId)) as [->|Hne]; simplify_map_eq.
        -- destruct (HI0 _ _ Hd) as (? & ? & ? & Himp).
           repeat split; auto; try lia.
           intros _. rewrite Ht, Hu. apply Himp. right.
           by eapply list_elem_of_lookup_2.
        -- destruct (HI0 _ _ Hf) as (? & ? & ? & Himp).
           repeat split; auto. intros [?|Hin]; auto.
    + destruct (cleanupTask_db io fileId w0) as [Hq Hdb].
      intros f d Hf. unfold doc_ok. rewrite Hq, Hdb in *.
      destruct (HI0 _ _ Hf) as (? & ? & ? & Himp).
      repeat split; auto. intros [?|Hin]; auto.
Qed.

Lemma reachable_Inv cfg w : reachable cfg w → Inv w.
Proof.
  induction 1 as [|w op _ IH Hadm].
  - intros f d Hf. simpl in Hf. by rewrite lookup_empty in Hf.
  - by apply Inv_exec.
Qed.

Lemma exec_bucket_frame cfg op w : bucket_frame w (exec cfg op w).
Proof.
  destruct op; simpl.
  - unfold initializeUpload, validateFileData, sanitizeFileName, save,
      bucket_frame.
    step_async; solve_bucket_frame.
  - destruct (uploadChunk_db io fileId chunkIndex chunkData totalChunks w)
      as (_ & Hc & Hf & Hn & _).
    unfold bucket_frame. rewrite Hc, Hf, Hn. by split.
  - unfold completeUpload, verifyChunks, bucket_frame.
    step_async; solve_bucket_frame.
  - unfold cancelUpload, bucket_frame. step_async; solve_bucket_frame.
  - unfold deleteFile, cleanupChunks, bucket_delete, bucket_frame.
    step_async; solve_bucket_frame.
  - unfold sweepOne, cleanupChunks, bucket_frame.
    step_async; solve_bucket_frame.
  - unfold bucket_frame. solve_bucket_frame.
  - unfold runImmediate.
    destruct (immediates w !! k) as [[f|f]|]; simpl.
    + by destruct (mergeTask_db io f (set_immediates (delete k) w))
        as (_ & ? & _).
    + unfold cleanupTask, cleanupChunks, bucket_frame.
      step_async; solve_bucket_frame.
    + unfold bucket_frame. solve_bucket_frame.
Qed.

Lemma reachable_fresh_ids cfg w : reachable cfg w → fresh_ids w.
Proof.
  induction 1 as [|w op _ IH _].
  - intros id _. simpl. by rewrite !lookup_empty.
  - destruct (exec_bucket_frame cfg op w) as [Hle Hframe].
    intros id Hid. destruct (IH id) as [Hc Hf]; [lia|].
    destruct (Hframe id Hid) as [Hc' Hf']. auto.
Qed.

Lemma reachable_run cfg ops w :
  reachable cfg w → admissible_run cfg ops w = true →
  reachable cfg (run cfg ops w).
Proof.
  revert w. induction ops as [|op ops IH]; intros w Hw Hadm; [done|].
  simpl in *. apply andb_true_iff in Hadm as [H1 H2].
  apply IH; [by constructor | done].
Qed.

(** ** The merge loop *)

(** When every chunk file is there the loop writes them to the stream one
    after the other, in the order of the indices. *)
Lemma mergeLoop_ok fileId totalChunks s (chunks : list Buffer) :
  ∀ start acc w,
    (∀ (k : nat) c, chunks !! k = Some c →
                    chunkDir fileId w !! (start + Z.of_nat k) = Some c) →
    ∃ w',
      mergeLoop fileId totalChunks s (seqZ start (Z.of_nat (length chunks)))
        acc w
      = (Return (acc + total_length chunks), w')
      ∧ db w' = db w ∧ uploadDir w' = uploadDir w
      ∧ gridFiles w' = gridFiles w ∧ nextObjectId w' = nextObjectId w
      ∧ immediates w' = immediates w
      ∧ default [] (gridChunks w' !! ws_id s)
        = (default [] (gridChunks w !! ws_id s) ++ concat chunks)%list
      ∧ log w'
        = (log w
           ++ map (chunk_merged_entry fileId totalChunks)
                  (seqZ start (Z.of_nat (length chunks))))%list.
Proof.
  induction chunks as [|c chunks IH]; intros start acc w Hfiles.
  - exists w. simpl. unfold ret, total_length. simpl.
    rewrite Z.add_0_r, !app_nil_r. done.
  - replace (Z.of_nat (length (c :: chunks)))
      with (Z.succ (Z.of_nat (length chunks))) by (simpl; lia).
    rewrite seqZ_cons by lia. rewrite Z.pred_succ. simpl.
    unfold bind at 1. unfold mergeOne. unfold bind at 1. unfold get at 1.
    pose proof (Hfiles O c eq_refl) as Hc.
    simpl in Hc. rewrite Z.add_0_r in Hc. rewrite Hc.
    unfold bind, write, logUpload, modify, ret. simpl.
    match goal with
    | |- context [mergeLoop _ _ _ _ ?a ?w1] =>
        destruct (IH (Z.succ start) a w1) as (w' & -> & ? & ? & ? & ? & ? & Hg & Hl)
    end.
    { intros k c' Hk. unfold chunkDir. simpl.
      replace (Z.succ start + Z.of_nat k) with (start + Z.of_nat (S k)) by lia.
      by apply Hfiles. }
    exists w'. simpl in *. repeat split; auto.
    + f_equal. f_equal. unfold total_length. simpl.
      rewrite length_app. lia.
    + rewrite Hg, lookup_insert_eq. simpl. by rewrite <- app_assoc.
    + rewrite Hl, <- app_assoc. done.
Qed.

(** A missing chunk file stops the loop with a FileSystemError. *)
Lemma mergeLoop_missing fileId totalChunks s indices :
  ∀ acc w i,
    i ∈ indices → chunkDir fileId w !! i = None →
    ∃ e w',
      mergeLoop fileId totalChunks s indices acc w = (Throw e, w')
      ∧ name e = FileSystemError.
Proof.
  induction indices as [|j rest IH]; intros acc w i Hin Hnone.
  - by apply elem_of_nil in Hin.
  - simpl. unfold bind at 1. unfold mergeOne. unfold bind at 1.
    unfold get at 1.
    destruct (chunkDir fileId w !! j) as [bytes|] eqn:Hj.
    + apply elem_of_cons in Hin as [->|Hin]; [congruence|].
      unfold bind, write, logUpload, modify, ret. simpl.
      eapply IH; [done|]. unfold chunkDir in *. simpl. done.
    + unfold throw. by eexists _, _.
Qed.

(** ** Merge *)

(** The round trip, for a files id that carries no chunk documents yet. *)
Lemma mergeChunks_stores_concat io fileId w d (chunks : list Buffer) :
  db w !! fileId = Some d →
  FileUpload.status d ≠ completed →
  FileUpload.totalChunks d = Z.of_nat (length chunks) →
  is_Some (uploadDir w !! fileId) →
  (∀ (i : nat) c, chunks !! i = Some c →
                  chunkDir fileId w !! Z.of_nat i = Some c) →
  gridChunks w !! nextObjectId w = None →
  connected io = true →
  finish_fails io = false →
  ∃ r w',
    mergeChunks io fileId w = (r, w')
    ∧ readBlob (nextObjectId w) w' = Some (concat chunks)
    ∧ (∃ rest,
         log w'
         = (log w
            ++ map (chunk_merged_entry fileId (FileUpload.totalChunks d))
                   (seqZ 0 (FileUpload.totalChunks d))
            ++ rest)%list)
    ∧ (rm_fails io = false →
       r = Return tt
       ∧ ∃ d', db w' !! fileId = Some d'
               ∧ FileUpload.status d' = completed
               ∧ FileUpload.gridFsId d' = Some (nextObjectId w)).
Proof.
  intros Hd Hs Ht [dir Hdir] Hfiles Hfresh Hconn Hfin.
  apply Status_eqb_neq in Hs.
  unfold mergeChunks, mergeFailure, openUploadStream, end_and_finish,
    cleanupChunks, abort.
  unfold_async. simpl. rewrite Hd, Hs. simpl. rewrite Hdir, Hconn.
  rewrite Ht.
  match goal with
  | |- context [mergeLoop ?f ?t ?s _ ?a ?w1] =>
      destruct (mergeLoop_ok f t s chunks 0 a w1)
        as (w1' & -> & Hdb & Hup & Hgf & Hn & Hq & Hg & Hl)
  end.
  { intros k c Hk. unfold chunkDir. simpl. rewrite Z.add_0_l.
    by apply Hfiles. }
  simpl in *. rewrite Hfin. simpl.
  rewrite Hfresh in Hg. simpl in Hg.
  destruct (1024 <? Z.abs (0 + total_length chunks - FileUpload.size d));
    destruct (rm_fails io); unfold modify, findOneAndUpdate; simpl;
    rewrite ?Hdb, ?Hd; simpl; rewrite ?lookup_insert_eq; simpl.
  all: eexists _, _; split; [reflexivity|].
  all: unfold readBlob; simpl; rewrite ?lookup_insert_eq, ?Hg, ?Hl.
  all: split; [reflexivity|].
  all: split; [eexists; rewrite <- ?app_assoc; reflexivity|].
  all: intros ?; try discriminate.
  all: split; [reflexivity|]; eexists; split; [reflexivity|]; done.
Qed.

(** C6: for a session whose staged chunks are [chunks] (one per index
    [0..totalChunks-1]), a merge whose stream finishes stores an object whose
    bytes are exactly [concat chunks]; the chunks are read in the order of
    their indices, as the log of the merge records; and when the cleanup
    succeeds too the merge returns and the session is completed with that
    object as its [gridFsId]. *)
Theorem merge_round_trip cfg io fileId w d (chunks : list Buffer) :
  reachable cfg w →
  db w !! fileId = Some d →
  FileUpload.status d ≠ completed →
  FileUpload.totalChunks d = Z.of_nat (length chunks) →
  (∀ (i : nat) c, chunks !! i = Some c →
                  chunkDir fileId w !! Z.of_nat i = Some c) →
  connected io = true →
  finish_fails io = false →
  ∃ r w',
    mergeChunks io fileId w = (r, w')
    ∧ readBlob (nextObjectId w) w' = Some (concat chunks)
    ∧ (∃ rest,
         log w'
         = (log w
            ++ map (chunk_merged_entry fileId (FileUpload.totalChunks d))
                   (seqZ 0 (FileUpload.totalChunks d))
            ++ rest)%list)
    ∧ (rm_fails io = false →
       r = Return tt
       ∧ ∃ d', db w' !! fileId = Some d'
               ∧ FileUpload.status d' = completed
               ∧ FileUpload.gridFsId d' = Some (nextObjectId w)).
Proof.
  intros Hw Hd Hs Ht Hfiles Hconn Hfin.
  destruct (reachable_Inv _ _ Hw _ _ Hd) as (_ & _ & Hone & _).
  destruct (reachable_fresh_ids _ _ Hw (nextObjectId w)) as [Hfresh _];
    [lia|].
  apply (mergeChunks_stores_concat io fileId w d chunks); auto.
  destruct chunks as [|c chunks]; [simpl in Ht; lia|].
  specialize (Hfiles O c eq_refl). unfold chunkDir in Hfiles.
  destruct (uploadDir w !! fileId); [done|].
  simpl in Hfiles. by rewrite lookup_empty in Hfiles.
Qed.


(** ** Completion *)

(** C7: for a completed session, [completeUpload] returns the "already
    processed" result and leaves the world as it is (no callback is queued,
    so no merge starts again); and [mergeChunks], should it run, returns at
    once, having only logged that the file is already merged. *)
Theorem complete_twice_is_idempotent cfg io w fileId d :
  reachable cfg w →
  db w !! fileId = Some d →
  FileUpload.status d = completed →
  completeUpload fileId w
  = (Return (mkCompleteResult "File already processed" completed), w)
  ∧ mergeChunks io fileId w
    = (Return tt, add_log (logUpload_entry fileId "already merged" []) w).
Proof.
  intros Hw Hd Hs.
  destruct (reachable_Inv _ _ Hw _ _ Hd) as (Hwf & _).
  unfold completeUpload, mergeChunks. unfold_async. simpl.
  rewrite Hwf, Hd, Hs. simpl. rewrite Hd, Hs. done.
Qed.

(** C8: for a session with [uploadedChunks < totalChunks], [completeUpload]
    throws an UploadError; nothing is queued for [setImmediate] (no merge
    starts), the bucket is left as it was, and so is the session. *)
Theorem incomplete_upload_is_rejected cfg w fileId d :
  reachable cfg w →
  db w !! fileId = Some d →
  FileUpload.uploadedChunks d < FileUpload.totalChunks d →
  ∃ e w',
    completeUpload fileId w = (Throw e, w')
    ∧ name e = UploadError
    ∧ immediates w' = immediates w
    ∧ gridChunks w' = gridChunks w
    ∧ gridFiles w' = gridFiles w
    ∧ db w' = db w.
Proof.
  intros Hw Hd Hlt.
  destruct (reachable_Inv _ _ Hw _ _ Hd) as (Hwf & _ & _ & Himp).
  assert (Hs : Status_eqb (FileUpload.status d) completed = false).
  { apply Status_eqb_neq. intros Hc. specialize (Himp (or_introl Hc)). lia. }
  assert (Hne : (FileUpload.uploadedChunks d =? FileUpload.totalChunks d)
                = false) by (apply Z.eqb_neq; lia).
  unfold completeUpload. unfold_async. simpl.
  rewrite Hwf. simpl. rewrite Hd. simpl. rewrite Hs. simpl.
  rewrite Hne. simpl.
  by eexists _, _.
Qed.

(** ** Chunk submission *)

Lemma chunkIndex_in_range chunkIndex totalChunks :
  0 ≤ chunkIndex < totalChunks →
  (chunkIndex <? 0) = false ∧ (chunkIndex >=? totalChunks) = false.
Proof.
  intros H. split; [apply Z.ltb_ge; lia|].
  rewrite Z.geb_leb. apply Z.leb_gt. lia.
Qed.

(** A submission that found its chunk below [uploadedChunks]. *)
Lemma uploadChunk_already_uploaded io fileId chunkIndex chunkData totalChunks
    w d :
  db w !! fileId = Some d →
  fileId_wellformed fileId = true →
  0 ≤ chunkIndex < totalChunks →
  FileUpload.status d ≠ completed →
  FileUpload.status d ≠ cancelled →
  chunkIndex < FileUpload.uploadedChunks d →
  uploadChunk io fileId chunkIndex chunkData totalChunks w
  = (Return (mkChunkResult chunkIndex (FileUpload.uploadedChunks d)
               (FileUpload.totalChunks d)),
     add_log (logUpload_entry fileId "chunk already uploaded"
                [("chunkIndex", chunkIndex)]) w).
Proof.
  intros Hd Hwf Hi Hs1 Hs2 Hlt.
  apply Status_eqb_neq in Hs1, Hs2.
  unfold uploadChunk, FileUpload.isChunkUploaded. unfold_async. simpl.
  rewrite Hwf.
  destruct (chunkIndex_in_range _ _ Hi) as [-> ->].
  simpl. rewrite Hd, Hs1, Hs2.
  replace (chunkIndex <? FileUpload.uploadedChunks d) with true
    by (symmetry; apply Z.ltb_lt; lia).
  done.
Qed.

(** What an accepted submission leaves behind. *)
Lemma uploadChunk_accepted io fileId chunkIndex chunkData totalChunks w r w' :
  uploadChunk io fileId chunkIndex chunkData totalChunks w = (Return r, w') →
  fileId_wellformed fileId = true
  ∧ 0 ≤ chunkIndex < totalChunks
  ∧ ∃ d', db w' !! fileId = Some d'
          ∧ FileUpload.status d' ≠ completed
          ∧ FileUpload.status d' ≠ cancelled
          ∧ chunkIndex < FileUpload.uploadedChunks d'
          ∧ r = mkChunkResult chunkIndex (FileUpload.uploadedChunks d')
                  (FileUpload.totalChunks d').
Proof.
  unfold uploadChunk, saveChunk, deleteChunk, FileUpload.isChunkUploaded.
  intros H. step_async; status_facts.
  all: (split; [done|]); (split; [lia|]).
  all: eexists; (split; [by simplify_map_eq|]); repeat split; auto; simpl.
  all: try lia; try congruence.
Qed.

(** C9: once a submission of a chunk index has succeeded, submitting the
    same index again (with whatever bytes) succeeds with the same answer,
    and changes neither the session, whose [uploadedChunks] stays as it
    was, nor the staged chunks. *)
Theorem resubmission_is_idempotent io io' fileId chunkIndex chunkData
    chunkData' totalChunks w r w' :
  uploadChunk io fileId chunkIndex chunkData totalChunks w = (Return r, w') →
  ∃ w'',
    uploadChunk io' fileId chunkIndex chunkData' totalChunks w'
    = (Return r, w'')
    ∧ db w'' = db w'
    ∧ uploadDir w'' = uploadDir w'.
Proof.
  intros H.
  apply uploadChunk_accepted in H
    as (Hwf & Hi & d' & Hd' & Hs1 & Hs2 & Hlt & ->).
  eexists. split; [by apply uploadChunk_already_uploaded|]. done.
Qed.

(** C10: a well-formed submission to an existing session is refused with
    an UploadError exactly when the session is completed or cancelled; in
    every other status (pending, uploading, processing, failed) it is
    accepted when the chunk file can be written, and [uploadedChunks]
    becomes the larger of its old value and [chunkIndex + 1], whether or
    not a merge of the session is queued. *)
Theorem submission_refused_only_when_terminal io fileId chunkIndex chunkData
    totalChunks w d :
  db w !! fileId = Some d →
  fileId_wellformed fileId = true →
  0 ≤ chunkIndex < totalChunks →
  writeFile_fails io = false →
  let r := fst (uploadChunk io fileId chunkIndex chunkData totalChunks w) in
  let w' := snd (uploadChunk io fileId chunkIndex chunkData totalChunks w) in
  match FileUpload.status d with
  | completed | cancelled =>
      (∃ e, r = Throw e ∧ name e = UploadError) ∧ db w' = db w
  | pending | uploading | processing | failed =>
      r = Return (mkChunkResult chunkIndex
                    (Z.max (FileUpload.uploadedChunks d) (chunkIndex + 1))
                    (FileUpload.totalChunks d))
      ∧ immediates w' = immediates w
      ∧ ∃ d', db w' !! fileId = Some d'
              ∧ FileUpload.uploadedChunks d'
                = Z.max (FileUpload.uploadedChunks d) (chunkIndex + 1)
              ∧ FileUpload.totalChunks d' = FileUpload.totalChunks d
  end.
Proof.
  intros Hd Hwf Hi Hio.
  unfold uploadChunk, saveChunk, deleteChunk, FileUpload.isChunkUploaded.
  unfold_async. simpl. rewrite Hwf, Hio.
  destruct (chunkIndex_in_range _ _ Hi) as [-> ->].
  simpl. rewrite Hd.
  destruct (FileUpload.status d) eqn:Hs; simpl.
  all: try (destruct (uploadDir w !! fileId) as [dir|];
            [destruct (dir !! chunkIndex)|]; simpl;
            [destruct (unlink_fails io)| |]; simpl; by eauto).
  all: destruct (chunkIndex <? FileUpload.uploadedChunks d) eqn:Hlt; simpl.
  all: try (apply Z.ltb_lt in Hlt; rewrite Z.max_l by lia;
            repeat split; eauto).
  all: apply Z.ltb_ge in Hlt.
  all: destruct (uploadDir w !! fileId); simpl; rewrite Hd.
  all: replace (FileUpload.uploadedChunks d <=? chunkIndex) with true
         by (symmetry; apply Z.leb_le; lia).
  all: simpl; rewrite Z.max_r by lia.
  all: repeat split; auto.
  all: eexists; (split; [by rewrite lookup_insert_eq|]); done.
Qed.

(** ** Progress *)

(** On every step [totalChunks] of a session stays what it was and
    [uploadedChunks] does not decrease. *)
Lemma uploadedChunks_monotone cfg op w fileId d d' :
  db w !! fileId = Some d →
  db (exec cfg op w) !! fileId = Some d' →
  FileUpload.totalChunks d' = FileUpload.totalChunks d
  ∧ FileUpload.uploadedChunks d ≤ FileUpload.uploadedChunks d'.
Proof.
  intros Hd Hd'. destruct op; simpl in *.
  - destruct (initializeUpload_db cfg generated fileData uploadedBy w)
      as [_ [Hdb|(d0 & Hnone & _ & _ & _ & _ & Hdb)]]; rewrite Hdb in Hd'.
    + by simplify_eq.
    + destruct (decide (fileId = generated)); simplify_map_eq. done.
  - destruct (uploadChunk_db io fileId0 chunkIndex chunkData totalChunks w)
      as (_ & _ & _ & _ & [Hdb|(d0 & d1 & Hd0 & Hdb & _ & _ & Hle & ->)]);
      rewrite Hdb in Hd'.
    + by simplify_eq.
    + destruct (decide (fileId = fileId0)); simplify_map_eq; simpl; [lia|done].
  - destruct (completeUpload_db fileId0 w)
      as [[_ Hdb]|(d0 & Hd0 & _ & _ & Hdb)]; rewrite Hdb in Hd'.
    + by simplify_eq.
    + destruct (decide (fileId = fileId0)); simplify_map_eq; simpl; done.
  - destruct (cancelUpload_db fileId0 w)
      as [[_ Hdb]|(d0 & Hd0 & _ & _ & Hdb)]; rewrite Hdb in Hd'.
    + by simplify_eq.
    + destruct (decide (fileId = fileId0)); simplify_map_eq; simpl; done.
  - destruct (deleteFile_db io fileId0 w) as [_ [Hdb|Hdb]]; rewrite Hdb in Hd'.
    + by simplify_eq.
    + apply lookup_delete_Some in Hd' as [_ Hd']. by simplify_eq.
  - destruct (sweepOne_db io fileId0 w) as [_ [Hdb|Hdb]]; rewrite Hdb in Hd'.
    + by simplify_eq.
    + apply lookup_delete_Some in Hd' as [_ Hd']. by simplify_eq.
  - apply lookup_delete_Some in Hd' as [_ Hd']. by simplify_eq.
  - unfold runImmediate in Hd'.
    destruct (immediates w !! k) as [[f|f]|]; simpl in Hd'.
    + destruct (mergeTask_db io f (set_immediates (delete k) w))
        as (_ & _ & [Hdb|(d0 & d1 & Hd0 & Hdb & _ & Ht & Hu)]);
        rewrite Hdb in Hd'; simpl in *.
      * by simplify_eq.
      * destruct (decide (fileId = f)); simplify_map_eq; [lia|done].
    + destruct (cleanupTask_db io f (set_immediates (delete k) w))
        as [_ Hdb]. rewrite Hdb in Hd'. simpl in Hd'. by simplify_eq.
    + by simplify_eq.
Qed.

(** C1 (not what the code does): after indices 0 and 2 of a session of 3
    chunks, the submission of index 2 answers [uploadedChunks = 3], and the
    session stores 3 of 3, although chunk 1 was never submitted and has no
    file.  From then on a submission of chunk 1 is answered as "already
    uploaded", its bytes are not staged, and [completeUpload] fails on the
    missing chunk. *)
Theorem out_of_order_submission_reports_full_progress :
  let w1 := run cfg0 [open3; submit 0 bytesA 3] emptyWorld in
  let w2 := exec cfg0 (submit 2 bytesC 3) w1 in
  let w3 := exec cfg0 (submit 1 bytesB 3) w2 in
  admissible_run cfg0 [open3; submit 0 bytesA 3; submit 2 bytesC 3] emptyWorld
  = true
  ∧ view idA w1 = Some (uploading, 1, 3, 0)
  ∧ fst (uploadChunk noFaults idA 2 bytesC 3 w1)
    = Return (mkChunkResult 2 3 3)
  ∧ view idA w2 = Some (uploading, 3, 3, 0)
  ∧ chunkDir idA w2 !! 1 = None
  ∧ fst (uploadChunk noFaults idA 1 bytesB 3 w2)
    = Return (mkChunkResult 1 3 3)
  ∧ chunkDir idA w3 !! 1 = None
  ∧ fst (completeUpload idA w3)
    = Throw (mkError UploadError "Some chunks are missing. Please re-upload.").
Proof. vm_compute. repeat split. Qed.

(** C2 (not what the code does): the merge of a session of 3 chunks
    streams every chunk, the bucket finishes the object and the session is
    set to completed; then [fs.rm] fails in [cleanupChunks].  The error is
    caught by the handler of [mergeChunks], which sets the session to
    failed, and again by the callback of [completeUpload]: the session ends
    failed with [retryCount] 1, while the object is stored and readable. *)
Theorem cleanup_failure_overwrites_completed :
  let w := run cfg0 [open3; submit 0 bytesA 3; submit 1 bytesB 3;
                     submit 2 bytesC 3; Complete idA] emptyWorld in
  let w' := exec cfg0 (RunImmediate rmFails 0) w in
  view idA w = Some (processing, 3, 3, 0)
  ∧ immediates w = [MergeChunksTask idA]
  ∧ fst (mergeChunks rmFails idA w)
    = Throw (mkError ReferenceError "chunkDir is not defined")
  ∧ view idA (snd (mergeChunks rmFails idA w)) = Some (failed, 3, 3, 0)
  ∧ view idA w' = Some (failed, 3, 3, 1)
  ∧ readBlob 0 w' = Some (bytesA ++ bytesB ++ bytesC)%list
  ∧ (FileUpload.gridFsId <$> db w' !! idA) = Some (Some 0%nat).
Proof. vm_compute. repeat split. Qed.

(** C3 (not what the code does): a submission whose header declares 10
    chunks, for index 5 of a session stored with [totalChunks = 3], is
    accepted and sets [uploadedChunks] to 6. *)
Theorem header_mismatch_exceeds_totalChunks :
  let w := run cfg0 [open3] emptyWorld in
  let w' := exec cfg0 (submit 5 bytesA 10) w in
  view idA w = Some (pending, 0, 3, 0)
  ∧ fst (uploadChunk noFaults idA 5 bytesA 10 w)
    = Return (mkChunkResult 5 6 3)
  ∧ view idA w' = Some (uploading, 6, 3, 0).
Proof. vm_compute. repeat split. Qed.

(** C4 (not what the code does): a cancelled session whose chunks are
    still staged is moved to processing by [completeUpload]; and a merge
    queued before the cancellation moves the cancelled session to
    completed. *)
Theorem cancelled_session_leaves_cancelled :
  let w1 := run cfg0 [open1; submit 0 bytesA 1; Cancel idA] emptyWorld in
  let w2 := run cfg0 [open1; submit 0 bytesA 1; Complete idA; Cancel idA]
              emptyWorld in
  view idA w1 = Some (cancelled, 1, 1, 0)
  ∧ fst (completeUpload idA w1)
    = Return (mkCompleteResult "Upload completed, processing file..."
                processing)
  ∧ view idA (exec cfg0 (Complete idA) w1) = Some (processing, 1, 1, 0)
  ∧ view idA w2 = Some (cancelled, 1, 1, 0)
  ∧ immediates w2 = [MergeChunksTask idA; CleanupChunksTask idA]
  ∧ view idA (exec cfg0 (RunImmediate noFaults 0) w2)
    = Some (completed, 1, 1, 0).
Proof. vm_compute. repeat split. Qed.

(** ** The theorems at concrete sessions *)


Lemma merge_round_trip_witness :
  ∃ r w',
    mergeChunks noFaults idA w_processing = (r, w')
    ∧ readBlob (nextObjectId w_processing) w'
      = Some (concat [bytesA; bytesB; bytesC])
    ∧ (∃ rest,
         log w'
         = (log w_processing
            ++ map (chunk_merged_entry idA 3) (seqZ 0 3) ++ rest)%list)
    ∧ (rm_fails noFaults = false →
       r = Return tt
       ∧ ∃ d', db w' !! idA = Some d'
               ∧ FileUpload.status d' = completed
               ∧ FileUpload.gridFsId d' = Some (nextObjectId w_processing)).
Proof.
  apply (merge_round_trip cfg0 noFaults idA w_processing
           (doc3 processing 3 None) [bytesA; bytesB; bytesC]).
  - unfold w_processing. apply reachable_run; [constructor|].
    vm_compute. reflexivity.
  - vm_compute. reflexivity.
  - simpl. discriminate.
  - reflexivity.
  - intros [|[|[|i]]] c Hc; simpl in Hc; try discriminate;
      injection Hc as <-; vm_compute; reflexivity.
  - reflexivity.
  - reflexivity.
Defined.

Lemma reachable_w_completed : reachable cfg0 w_completed.
Proof.
  unfold w_completed. apply reachable_run; [constructor|].
  vm_compute. reflexivity.
Qed.

Lemma reachable_w_partial : reachable cfg0 w_partial.
Proof.
  unfold w_partial. apply reachable_run; [constructor|].
  vm_compute. reflexivity.
Qed.

Lemma complete_twice_is_idempotent_witness :
  completeUpload idA w_completed
  = (Return (mkCompleteResult "File already processed" completed),
     w_completed)
  ∧ mergeChunks noFaults idA w_completed
    = (Return tt,
       add_log (logUpload_entry idA "already merged" []) w_completed).
Proof.
  apply (complete_twice_is_idempotent cfg0 noFaults w_completed idA
           (doc3 completed 3 (Some 0%nat))).
  - exact reachable_w_completed.
  - vm_compute. reflexivity.
  - reflexivity.
Defined.

Lemma incomplete_upload_is_rejected_witness :
  ∃ e w',
    completeUpload idA w_partial = (Throw e, w')
    ∧ name e = UploadError
    ∧ immediates w' = immediates w_partial
    ∧ gridChunks w' = gridChunks w_partial
    ∧ gridFiles w' = gridFiles w_partial
    ∧ db w' = db w_partial.
Proof.
  apply (incomplete_upload_is_rejected cfg0 w_partial idA
           (doc3 uploading 1 None)).
  - exact reachable_w_partial.
  - vm_compute. reflexivity.
  - simpl. lia.
Defined.

Lemma resubmission_is_idempotent_witness :
  ∃ w'',
    uploadChunk noFaults idA 0 bytesB 3 w_partial
    = (Return (mkChunkResult 0 1 3), w'')
    ∧ db w'' = db w_partial
    ∧ uploadDir w'' = uploadDir w_partial.
Proof.
  apply (resubmission_is_idempotent noFaults noFaults idA 0 bytesA bytesB 3
           (run cfg0 [open3] emptyWorld) (mkChunkResult 0 1 3) w_partial).
  vm_compute. reflexivity.
Defined.

Lemma submission_refused_only_when_terminal_witness :
  FileUpload.status (doc1 processing) = processing
  ∧ immediates w_inflight = [MergeChunksTask idA]
  ∧ fst (uploadChunk noFaults idA 1 bytesB 2 w_inflight)
    = Return (mkChunkResult 1 (Z.max 1 (1 + 1)) 1)
  ∧ immediates (snd (uploadChunk noFaults idA 1 bytesB 2 w_inflight))
    = immediates w_inflight
  ∧ ∃ d', db (snd (uploadChunk noFaults idA 1 bytesB 2 w_inflight)) !! idA
          = Some d'
          ∧ FileUpload.uploadedChunks d' = Z.max 1 (1 + 1)
          ∧ FileUpload.totalChunks d' = 1.
Proof.
  split; [reflexivity|]. split; [vm_compute; reflexivity|].
  apply (submission_refused_only_when_terminal noFaults idA 1 bytesB 2
           w_inflight (doc1 processing)).
  - vm_compute. reflexivity.
  - vm_compute. reflexivity.
  - lia.
  - reflexivity.
Defined.

(** * Further properties of the service *)

(** * Further properties *)

(** ** File names *)

Lemma dropWhile_nil {A} (p : A → bool) l :
  dropWhile p l = [] ↔ forallb p l = true.
Proof.
  induction l as [|x l IH]; simpl; [done|].
  destruct (p x); simpl; [done|]. split; discriminate.
Qed.

Lemma dropWhile_head {A} (p : A → bool) l x l' :
  dropWhile p l = x :: l' → p x = false.
Proof.
  induction l as [|y l IH]; simpl; [discriminate|].
  destruct (p y) eqn:Hy; [done|]. intros [= -> _]. done.
Qed.

Lemma dropWhile_none {A} (p : A → bool) l :
  forallb (fun x => negb (p x)) l = true → dropWhile p l = l.
Proof.
  destruct l as [|x l]; simpl; [done|].
  intros H. apply andb_true_iff in H as [H _].
  by apply negb_true_iff in H as ->.
Qed.

Lemma takeWhile_all {A} (p : A → bool) l :
  forallb p l = true → takeWhile p l = l.
Proof.
  induction l as [|x l IH]; simpl; [done|].
  intros H. apply andb_true_iff in H as [-> H]. by rewrite IH.
Qed.

Lemma forallb_rev {A} (p : A → bool) l :
  forallb p (rev l) = forallb p l.
Proof.
  induction l as [|x l IH]; simpl; [done|].
  rewrite forallb_app, IH. simpl. rewrite andb_true_r. apply andb_comm.
Qed.

Lemma string_length_list l :
  String.length (string_of_list_ascii l) = length l.
Proof. induction l; simpl; congruence. Qed.

Lemma basename_empty_iff p :
  basename p = "" ↔ only_slashes p = true.
Proof.
  unfold basename, only_slashes.
  rewrite <- (forallb_rev _ (list_ascii_of_string p)).
  rewrite <- dropWhile_nil.
  destruct (dropWhile _ (rev (list_ascii_of_string p))) as [|c r] eqn:Hd.
  - done.
  - apply dropWhile_head in Hd. simpl. rewrite Hd. simpl.
    split; [|discriminate]. intros H.
    apply (f_equal String.length) in H.
    rewrite string_length_list, length_app in H. simpl in H. lia.
Qed.

Lemma safe_char_not_slash c : safe_char c = true → Ascii.eqb c slash = false.
Proof.
  intros H. destruct (Ascii.eqb c slash) eqn:E; [|done].
  apply Ascii.eqb_eq in E as ->. discriminate.
Qed.

Lemma basename_no_slash l :
  forallb safe_char l = true →
  basename (string_of_list_ascii l) = string_of_list_ascii l.
Proof.
  intros H. unfold basename. rewrite list_ascii_of_string_of_list_ascii.
  assert (Hn : forallb (fun c => negb (Ascii.eqb c slash)) (rev l) = true).
  { rewrite forallb_rev. apply forallb_forall. intros c Hc.
    rewrite forallb_forall in H. by rewrite safe_char_not_slash by auto. }
  rewrite dropWhile_none by done.
  rewrite takeWhile_all by done. by rewrite rev_involutive.
Qed.

(** What [sanitizeFileName] returns. *)
Lemma sanitizeFileName_result fileName w s w' :
  sanitizeFileName fileName w = (Return s, w') →
  w' = w
  ∧ s ≠ ""
  ∧ forallb safe_char (list_ascii_of_string s) = true.
Proof.
  unfold sanitizeFileName, ret, throw.
  destruct (_ =? _)%nat eqn:Hlen; intros [= <- <-].
  split; [done|]. split.
  - intros Hs. rewrite Hs in Hlen. discriminate.
  - rewrite list_ascii_of_string_of_list_ascii.
    apply forallb_forall. intros c Hc.
    apply in_map_iff in Hc as (c0 & <- & _).
    by destruct (safe_char c0) eqn:E.
Qed.

(** A file name that [sanitizeFileName] accepts comes out non-empty and
    made of characters of [[a-zA-Z0-9._-]] only (so without any path
    separator), and the call has no effect. *)
Theorem sanitizeFileName_safe fileName w s w' :
  sanitizeFileName fileName w = (Return s, w') →
  w' = w
  ∧ s ≠ ""
  ∧ forallb safe_char (list_ascii_of_string s) = true.
Proof. apply sanitizeFileName_result. Qed.

(** Sanitizing is idempotent: a sanitized name is accepted again and comes
    out as it is. *)
Theorem sanitizeFileName_idempotent fileName w s w' :
  sanitizeFileName fileName w = (Return s, w') →
  sanitizeFileName s w = (Return s, w).
Proof.
  intros H. apply sanitizeFileName_result in H as (_ & Hne & Hsafe).
  remember (list_ascii_of_string s) as l eqn:Hl.
  assert (s = string_of_list_ascii l) as ->
    by (subst l; symmetry; apply string_of_list_ascii_of_string).
  clear Hl. unfold sanitizeFileName.
  rewrite basename_no_slash by done.
  rewrite list_ascii_of_string_of_list_ascii.
  assert (Hid : map (fun c => if safe_char c then c else "_"%char) l = l).
  { rewrite <- (map_id l) at 2.
    apply map_ext_in. intros c Hc.
    rewrite forallb_forall in Hsafe. by rewrite Hsafe. }
  rewrite Hid, string_length_list.
  destruct l; [done|]. done.
Qed.

(** [sanitizeFileName] throws (a ValidationError, leaving the world alone)
    exactly for the names made of slashes only, the empty name among
    them. *)
Theorem sanitizeFileName_rejects_iff fileName w :
  (∃ e, sanitizeFileName fileName w = (Throw e, w)
        ∧ name e = ValidationError)
  ↔ only_slashes fileName = true.
Proof.
  rewrite <- basename_empty_iff. unfold sanitizeFileName, ret, throw.
  rewrite string_length_list, length_map.
  split.
  - intros (e & H & _).
    destruct (length _ =? 0)%nat eqn:Hlen; [|discriminate].
    apply Nat.eqb_eq in Hlen.
    rewrite <- (string_of_list_ascii_of_string (basename fileName)).
    by destruct (list_ascii_of_string (basename fileName)).
  - intros ->. simpl. by eexists.
Qed.

(** ** Opening a session and reading it back *)

(** What [initializeUpload] leaves when it throws. *)
Lemma initializeUpload_throw_frame cfg generated fileData
    uploadedBy w e w' :
  initializeUpload cfg generated fileData uploadedBy w = (Throw e, w') →
  db w' = db w ∧ uploadDir w' = uploadDir w ∧ immediates w' = immediates w.
Proof.
  unfold initializeUpload, validateFileData, sanitizeFileName, save.
  intros H. step_async; done.
Qed.

(** When [initializeUpload] throws, no document was created and the staging
    area and the queue of callbacks are untouched. *)
Theorem initializeUpload_failure_creates_nothing cfg generated fileData
    uploadedBy w e w' :
  initializeUpload cfg generated fileData uploadedBy w = (Throw e, w') →
  db w' = db w ∧ uploadDir w' = uploadDir w ∧ immediates w' = immediates w.
Proof. apply initializeUpload_throw_frame. Qed.

(** A declared size above the configured limit is always refused, and so
    is a declared size or a chunk count that is not positive. *)
Theorem initializeUpload_refuses_bad_sizes cfg generated fileData
    uploadedBy w :
  totalSizeLimit cfg < fd_fileSize fileData
  ∨ fd_fileSize fileData ≤ 0
  ∨ fd_totalChunks fileData ≤ 0 →
  ∃ e w',
    initializeUpload cfg generated fileData uploadedBy w = (Throw e, w')
    ∧ db w' = db w.
Proof.
  intros Hbad.
  destruct (initializeUpload cfg generated fileData uploadedBy w)
    as [[fileId|e] w'] eqn:H.
  - exfalso. revert H.
    unfold initializeUpload, validateFileData, sanitizeFileName, save.
    intros H. step_async.
    all: repeat match goal with
         | H : (_ <=? _) = false |- _ => apply Z.leb_gt in H
         | H : (_ <? _) = false |- _ => apply Z.ltb_ge in H
         end; lia.
  - eexists _, _. split; [done|].
    by apply initializeUpload_throw_frame in H as (? & _).
Qed.

(** What [initializeUpload] leaves when it returns. *)
Lemma initializeUpload_return_frame cfg generated fileData uploadedBy
    w fileId w' :
  initializeUpload cfg generated fileData uploadedBy w = (Return fileId, w') →
  fileId = generated
  ∧ fileId_wellformed generated = true
  ∧ db w !! generated = None
  ∧ 0 < fd_fileSize fileData ≤ totalSizeLimit cfg
  ∧ 0 < fd_totalChunks fileData
  ∧ uploadDir w' = uploadDir w
  ∧ immediates w' = immediates w
  ∧ ∃ sanitized d,
      sanitizeFileName (fd_fileName fileData) w = (Return sanitized, w)
      ∧ db w' = <[generated := d]> (db w)
      ∧ FileUpload.originalName d = sanitized
      ∧ FileUpload.size d = fd_fileSize fileData
      ∧ FileUpload.totalChunks d = fd_totalChunks fileData
      ∧ FileUpload.uploadedChunks d = 0
      ∧ FileUpload.status d = pending
      ∧ FileUpload.gridFsId d = None
      ∧ FileUpload.retryCount d = 0
      ∧ FileUpload.errorMessage d = None
      ∧ FileUpload.uploadedBy d = uploadedBy.
Proof.
  unfold initializeUpload, validateFileData, sanitizeFileName, save.
  intros H. step_async.
  all: repeat match goal with
       | H : (_ <=? _) = false |- _ => apply Z.leb_gt in H
       | H : (_ <? _) = false |- _ => apply Z.ltb_ge in H
       end.
  all: repeat split; eauto using schema_accepts_wellformed; try lia.
  all: eexists _, _; repeat split; reflexivity.
Qed.

(** When [initializeUpload] returns, it returns the generated id, which is
    well formed and was not in use; the sizes were in range; and the one
    change to the collection is the new document: pending, no chunk
    uploaded, the declared size and chunk count, the sanitized name. *)
Theorem initializeUpload_creates_pending cfg generated fileData uploadedBy
    w fileId w' :
  initializeUpload cfg generated fileData uploadedBy w = (Return fileId, w') →
  fileId = generated
  ∧ fileId_wellformed generated = true
  ∧ db w !! generated = None
  ∧ 0 < fd_fileSize fileData ≤ totalSizeLimit cfg
  ∧ 0 < fd_totalChunks fileData
  ∧ uploadDir w' = uploadDir w
  ∧ immediates w' = immediates w
  ∧ ∃ sanitized d,
      sanitizeFileName (fd_fileName fileData) w = (Return sanitized, w)
      ∧ db w' = <[generated := d]> (db w)
      ∧ FileUpload.originalName d = sanitized
      ∧ FileUpload.size d = fd_fileSize fileData
      ∧ FileUpload.totalChunks d = fd_totalChunks fileData
      ∧ FileUpload.uploadedChunks d = 0
      ∧ FileUpload.status d = pending
      ∧ FileUpload.gridFsId d = None
      ∧ FileUpload.retryCount d = 0
      ∧ FileUpload.errorMessage d = None
      ∧ FileUpload.uploadedBy d = uploadedBy.
Proof. apply initializeUpload_return_frame. Qed.

(** [getUploadStatus] of a stored session answers with the fields of its
    document and changes nothing. *)
Lemma getUploadStatus_found fileId w d :
  db w !! fileId = Some d →
  fileId_wellformed fileId = true →
  getUploadStatus fileId w
  = (Return (mkStatusView fileId (FileUpload.originalName d)
               (FileUpload.size d) (FileUpload.status d)
               (FileUpload.uploadedChunks d) (FileUpload.totalChunks d)
               (FileUpload.errorMessage d) (FileUpload.uploadedBy d)
               (FileUpload.mimeType d)),
     w).
Proof.
  intros Hd Hwf. unfold getUploadStatus. unfold_async. simpl.
  rewrite Hwf. simpl. by rewrite Hd.
Qed.

(** Round trip: right after [initializeUpload] returned an id,
    [getUploadStatus] of that id answers with a pending session, no chunk
    uploaded, and the declared size and chunk count. *)
Theorem initializeUpload_then_getUploadStatus cfg generated fileData
    uploadedBy w fileId w' :
  initializeUpload cfg generated fileData uploadedBy w = (Return fileId, w') →
  ∃ view,
    getUploadStatus fileId w' = (Return view, w')
    ∧ sv_fileId view = fileId
    ∧ sv_status view = pending
    ∧ sv_uploadedChunks view = 0
    ∧ sv_totalChunks view = fd_totalChunks fileData
    ∧ sv_size view = fd_fileSize fileData
    ∧ sv_errorMessage view = None.
Proof.
  intros H.
  apply initializeUpload_return_frame in H
    as (-> & Hwf & _ & _ & _ & _ & _ & s & d & _ & Hdb & _ & Hsz & Ht & Hu
        & Hs & _ & _ & He & _).
  assert (Hd : db w' !! generated = Some d)
    by (rewrite Hdb; apply lookup_insert_eq).
  eexists. split; [by apply getUploadStatus_found|]. simpl.
  repeat split; auto.
Qed.

(** ** Chunk submissions: the write path and the error path *)

(** Whenever [uploadChunk] for a well-formed id throws (for whatever
    reason: an index outside the header's range, an unknown, completed or
    cancelled session, a failed write) and [fs.unlink] works, no file
    [chunk-<chunkIndex>] is left in the staging directory of that id, even
    if one was staged before the call; the documents are untouched. *)
Theorem uploadChunk_failure_discards_chunk io fileId chunkIndex chunkData
    totalChunks w e w' :
  fileId_wellformed fileId = true →
  uploadChunk io fileId chunkIndex chunkData totalChunks w = (Throw e, w') →
  unlink_fails io = false →
  chunkDir fileId w' !! chunkIndex = None ∧ db w' = db w.
Proof.
  unfold uploadChunk, saveChunk, deleteChunk, FileUpload.isChunkUploaded,
    chunkDir.
  intros _ H Hio. step_async; split; done.
Qed.

(** The first checks of [uploadChunk], in their order: a malformed id and
    then an index outside [0, totalChunks) of the header give a
    ValidationError, and a well-formed request for an id without document a
    NotFoundError. *)
Theorem uploadChunk_early_errors io fileId chunkIndex chunkData totalChunks
    w :
  let r := fst (uploadChunk io fileId chunkIndex chunkData totalChunks w) in
  (fileId_wellformed fileId = false →
   r = Throw (mkError ValidationError "Invalid file ID format"))
  ∧ (fileId_wellformed fileId = true →
     chunkIndex < 0 ∨ totalChunks ≤ chunkIndex →
     r = Throw (mkError ValidationError "Invalid chunk index"))
  ∧ (fileId_wellformed fileId = true →
     0 ≤ chunkIndex < totalChunks →
     db w !! fileId = None →
     r = Throw (mkError NotFoundError "Upload session")).
Proof.
  unfold uploadChunk, deleteChunk. unfold_async. simpl.
  split; [|split].
  - intros ->. simpl. repeat case_match; done.
  - intros -> Hi. simpl.
    assert ((chunkIndex <? 0) || (chunkIndex >=? totalChunks) = true) as ->.
    { apply orb_true_iff. rewrite Z.ltb_lt, Z.geb_leb, Z.leb_le. lia. }
    simpl. repeat case_match; done.
  - intros -> Hi Hnone. simpl.
    destruct (chunkIndex_in_range _ _ Hi) as [-> ->]. simpl.
    rewrite Hnone. simpl. repeat case_match; done.
Qed.

(** An accepted submission at or above the counter writes exactly the
    submitted bytes to [chunk-<chunkIndex>], leaves the other chunk files of
    the session alone, sets [uploadedChunks] to [chunkIndex + 1] and the
    status to uploading, whatever the status was before (pending,
    uploading, processing or failed). *)
Theorem uploadChunk_stages_bytes io fileId chunkIndex chunkData totalChunks
    w d :
  db w !! fileId = Some d →
  fileId_wellformed fileId = true →
  0 ≤ chunkIndex < totalChunks →
  FileUpload.status d ≠ completed →
  FileUpload.status d ≠ cancelled →
  FileUpload.uploadedChunks d ≤ chunkIndex →
  writeFile_fails io = false →
  let w' := snd (uploadChunk io fileId chunkIndex chunkData totalChunks w) in
  chunkDir fileId w' = <[chunkIndex := chunkData]> (chunkDir fileId w)
  ∧ db w'
    = <[fileId := FileUpload.set_status uploading
                    (FileUpload.set_uploadedChunks (chunkIndex + 1) d)]>
        (db w).
Proof.
  intros Hd Hwf Hi Hs1 Hs2 Hle Hio.
  apply Status_eqb_neq in Hs1, Hs2.
  unfold uploadChunk, saveChunk, FileUpload.isChunkUploaded, chunkDir.
  unfold_async. simpl. rewrite Hwf, Hio.
  destruct (chunkIndex_in_range _ _ Hi) as [-> ->]. simpl.
  rewrite Hd, Hs1, Hs2.
  replace (chunkIndex <? FileUpload.uploadedChunks d) with false
    by (symmetry; apply Z.ltb_ge; lia).
  destruct (uploadDir w !! fileId) as [dir|] eqn:Hdir; simpl; rewrite Hd.
  all: replace (FileUpload.uploadedChunks d <=? chunkIndex) with true
         by (symmetry; apply Z.leb_le; lia).
  all: simpl; rewrite ?lookup_insert_eq; simpl; rewrite ?Hdir; done.
Qed.


(** ** Completion, cancellation, deletion *)

(** The two outcomes of [verifyChunks]. *)
Lemma verifyChunks_cases fileId totalChunks w :
  (verifyChunks fileId totalChunks w = (Return tt, w)
   ↔ ∀ i, 0 ≤ i < totalChunks → is_Some (chunkDir fileId w !! i))
  ∧ (verifyChunks fileId totalChunks w = (Return tt, w)
     ∨ verifyChunks fileId totalChunks w
       = (Throw (mkError UploadError
                   "Some chunks are missing. Please re-upload."), w)).
Proof.
  unfold verifyChunks.
  destruct (forallb _ _) eqn:Hall.
  - split; [|by left]. split; [|done]. intros _ i Hi.
    rewrite forallb_forall in Hall.
    specialize (Hall i). rewrite bool_decide_eq_true in Hall.
    apply Hall, list_elem_of_In, elem_of_seqZ. lia.
  - split; [|by right]. split; [discriminate|]. intros Hpresent.
    exfalso. apply not_true_iff_false in Hall. apply Hall.
    apply forallb_forall. intros i Hi.
    apply list_elem_of_In, elem_of_seqZ in Hi.
    apply bool_decide_eq_true, Hpresent. lia.
Qed.

(** [verifyChunks] returns exactly when every chunk file
    [chunk-0 .. chunk-(totalChunks-1)] is staged; otherwise it throws the
    "missing chunks" UploadError.  It changes nothing. *)
Theorem verifyChunks_iff fileId totalChunks w :
  (verifyChunks fileId totalChunks w = (Return tt, w)
   ↔ ∀ i, 0 ≤ i < totalChunks → is_Some (chunkDir fileId w !! i))
  ∧ (verifyChunks fileId totalChunks w = (Return tt, w)
     ∨ verifyChunks fileId totalChunks w
       = (Throw (mkError UploadError
                   "Some chunks are missing. Please re-upload."), w)).
Proof. apply verifyChunks_cases. Qed.

(** The first checks of [completeUpload]: a malformed id gives a
    ValidationError, an id without document a NotFoundError; in both cases
    only the log grows. *)
Theorem completeUpload_early_errors fileId w :
  (fileId_wellformed fileId = false →
   ∃ e, completeUpload fileId w
        = (Throw e, add_log (logUploadError_entry "complete upload" e fileId)
                      w)
        ∧ name e = ValidationError)
  ∧ (fileId_wellformed fileId = true → db w !! fileId = None →
     ∃ e, completeUpload fileId w
          = (Throw e, add_log (logUploadError_entry "complete upload" e
                                 fileId) w)
          ∧ name e = NotFoundError).
Proof.
  unfold completeUpload. unfold_async. simpl. split.
  - intros ->. simpl. by eexists.
  - intros Hwf Hnone. rewrite Hwf. simpl. rewrite Hnone. simpl.
    by eexists.
Qed.

(** For a stored session, [completeUpload] hands the session to the merge
    (answers "processing") exactly when the session is not completed, its
    counter equals [totalChunks] and every chunk file is staged. *)
Theorem completeUpload_hands_off_iff fileId w d :
  db w !! fileId = Some d →
  fileId_wellformed fileId = true →
  (fst (completeUpload fileId w)
   = Return (mkCompleteResult "Upload completed, processing file..."
               processing)
   ↔ FileUpload.status d ≠ completed
     ∧ FileUpload.uploadedChunks d = FileUpload.totalChunks d
     ∧ ∀ i, 0 ≤ i < FileUpload.totalChunks d →
            is_Some (chunkDir fileId w !! i)).
Proof.
  intros Hd Hwf.
  destruct (verifyChunks_cases fileId (FileUpload.totalChunks d) w)
    as [Hiff Hcases].
  rewrite <- Hiff. clear Hiff.
  unfold completeUpload. unfold_async. simpl. rewrite Hwf. simpl.
  rewrite Hd.
  destruct (Status_eqb (FileUpload.status d) completed) eqn:Hs; simpl.
  { apply Status_eqb_eq in Hs. split; [discriminate|]. by intros [? _]. }
  apply Status_eqb_neq in Hs.
  destruct (FileUpload.uploadedChunks d =? FileUpload.totalChunks d)
    eqn:He; simpl.
  - apply Z.eqb_eq in He.
    destruct Hcases as [-> | ->]; simpl.
    + unfold findOneAndUpdate. rewrite Hd. simpl. done.
    + split; [discriminate|]. intros (_ & _ & ?). discriminate.
  - apply Z.eqb_neq in He. split; [discriminate|]. by intros (_ & ? & _).
Qed.

(** When [completeUpload] answers "processing", the session is set to
    processing with its counters unchanged, exactly one merge callback is
    added at the end of the queue, and neither the staged chunks nor the
    bucket are touched. *)
Theorem completeUpload_hand_off_effect fileId w w' :
  completeUpload fileId w
  = (Return (mkCompleteResult "Upload completed, processing file..."
               processing), w') →
  ∃ d, db w !! fileId = Some d
       ∧ db w' = <[fileId := FileUpload.set_status processing d]> (db w)
       ∧ immediates w' = (immediates w ++ [MergeChunksTask fileId])%list
       ∧ uploadDir w' = uploadDir w
       ∧ gridChunks w' = gridChunks w
       ∧ gridFiles w' = gridFiles w.
Proof.
  unfold completeUpload, verifyChunks. intros H. step_async.
  eexists. repeat split; done.
Qed.

(** When [completeUpload] throws, nothing but the log has changed. *)
Theorem completeUpload_failure_changes_nothing fileId w e w' :
  completeUpload fileId w = (Throw e, w') →
  w' = add_log (logUploadError_entry "complete upload" e fileId) w.
Proof.
  unfold completeUpload, verifyChunks. intros H. step_async; done.
Qed.

(** What [cancelUpload] does to a session that is not completed. *)
Lemma cancelUpload_returns fileId w d :
  db w !! fileId = Some d →
  fileId_wellformed fileId = true →
  FileUpload.status d ≠ completed →
  ∃ w',
    cancelUpload fileId w = (Return tt, w')
    ∧ db w' = <[fileId := FileUpload.set_status cancelled d]> (db w)
    ∧ immediates w' = (immediates w ++ [CleanupChunksTask fileId])%list
    ∧ uploadDir w' = uploadDir w.
Proof.
  intros Hd Hwf Hs. apply Status_eqb_neq in Hs.
  unfold cancelUpload. unfold_async. simpl. rewrite Hwf. simpl.
  rewrite Hd, Hs. simpl. unfold findOneAndUpdate. rewrite Hd. simpl.
  by eexists.
Qed.

(** [cancelUpload] of a stored session that is not completed returns,
    sets the status to cancelled (whatever it was: pending, uploading,
    processing, failed or already cancelled), and queues the cleanup; the
    staged chunks are still there until that callback runs. *)
Theorem cancelUpload_effect fileId w d :
  db w !! fileId = Some d →
  fileId_wellformed fileId = true →
  FileUpload.status d ≠ completed →
  ∃ w',
    cancelUpload fileId w = (Return tt, w')
    ∧ db w' = <[fileId := FileUpload.set_status cancelled d]> (db w)
    ∧ immediates w' = (immediates w ++ [CleanupChunksTask fileId])%list
    ∧ uploadDir w' = uploadDir w.
Proof. apply cancelUpload_returns. Qed.

(** [cancelUpload] of a completed session throws an UploadError and
    changes nothing but the log: the session stays completed and no cleanup
    is queued. *)
Theorem cancelUpload_completed_refused fileId w d :
  db w !! fileId = Some d →
  fileId_wellformed fileId = true →
  FileUpload.status d = completed →
  cancelUpload fileId w
  = (Throw (mkError UploadError "Cannot cancel completed upload"),
     add_log (logUploadError_entry "cancel upload"
                (mkError UploadError "Cannot cancel completed upload")
                fileId) w).
Proof.
  intros Hd Hwf Hs.
  unfold cancelUpload. unfold_async. simpl. rewrite Hwf. simpl.
  by rewrite Hd, Hs.
Qed.

(** Cancelling and then letting the queued cleanup run (with a working
    [fs.rm]) removes the staging directory of the session and leaves the
    session cancelled. *)
Theorem cancelUpload_then_cleanup io fileId w d :
  db w !! fileId = Some d →
  fileId_wellformed fileId = true →
  FileUpload.status d ≠ completed →
  rm_fails io = false →
  let w1 := snd (cancelUpload fileId w) in
  let w2 := snd (runImmediate io (length (immediates w)) w1) in
  uploadDir w2 !! fileId = None
  ∧ db w2 !! fileId = Some (FileUpload.set_status cancelled d)
  ∧ immediates w2 = immediates w.
Proof.
  intros Hd Hwf Hs Hio.
  destruct (cancelUpload_returns fileId w d Hd Hwf Hs)
    as (w' & Hc & Hdb & Hq & Hup).
  rewrite Hc. simpl. unfold runImmediate. rewrite Hq.
  rewrite lookup_app_r, Nat.sub_diag by lia. simpl.
  unfold cleanupTask, cleanupChunks. unfold_async. simpl. rewrite Hio.
  simpl. rewrite Hdb, Hup, Hq, lookup_delete_eq, lookup_insert_eq.
  repeat split.
  rewrite delete_middle. apply app_nil_r.
Qed.

(** [deleteFile] of a stored session, with the bucket reachable and a
    working [fs.rm]: the document is gone, the staging directory is gone,
    and the stored object, if the session had one, can no longer be read.
    Afterwards [getUploadStatus] of the id answers NotFoundError. *)
Theorem deleteFile_removes_everything io fileId w d :
  db w !! fileId = Some d →
  fileId_wellformed fileId = true →
  rm_fails io = false →
  connected io = true →
  ∃ w',
    deleteFile io fileId w = (Return tt, w')
    ∧ db w' = delete fileId (db w)
    ∧ uploadDir w' = delete fileId (uploadDir w)
    ∧ (∀ id, FileUpload.gridFsId d = Some id →
             readBlob id w' = None ∧ gridChunks w' !! id = None)
    ∧ ∃ e w'', getUploadStatus fileId w' = (Throw e, w'')
               ∧ name e = NotFoundError.
Proof.
  intros Hd Hwf Hrm Hconn.
  unfold deleteFile, cleanupChunks, bucket_delete, getUploadStatus, readBlob.
  unfold_async. simpl. rewrite Hwf. simpl. rewrite Hd, Hrm.
  destruct (FileUpload.gridFsId d) as [id|]; simpl; rewrite ?Hconn; simpl.
  all: eexists; split; [reflexivity|]; simpl.
  all: rewrite ?lookup_delete_eq; repeat split; try done.
  all: try (match goal with H : Some _ = Some _ |- _ =>
              injection H as <- end; by rewrite !lookup_delete_eq).
  all: by eexists _, _.
Qed.

(** [deleteFile] removes the stored object before it cleans the staging
    area: when [fs.rm] fails the call throws and the document stays, still
    carrying its [gridFsId], but the object it names is already deleted. *)
Theorem deleteFile_cleanup_failure_loses_object io fileId w d id :
  db w !! fileId = Some d →
  fileId_wellformed fileId = true →
  FileUpload.gridFsId d = Some id →
  connected io = true →
  rm_fails io = true →
  ∃ e w',
    deleteFile io fileId w = (Throw e, w')
    ∧ db w' !! fileId = Some d
    ∧ uploadDir w' = uploadDir w
    ∧ readBlob id w' = None.
Proof.
  intros Hd Hwf Hg Hconn Hrm.
  unfold deleteFile, cleanupChunks, bucket_delete, readBlob.
  unfold_async. simpl. rewrite Hwf. simpl. rewrite Hd, Hrm, Hg, Hconn.
  simpl. eexists _, _. split; [reflexivity|]. simpl.
  by rewrite lookup_delete_eq.
Qed.

(** ** The model's view of missing chunks *)

(** The elements of [getMissingChunks]. *)
Lemma getMissingChunks_elem d :
  (∀ i, i ∈ FileUpload.getMissingChunks d
        ↔ 0 ≤ i < FileUpload.totalChunks d
          ∧ FileUpload.isChunkUploaded d i = false)
  ∧ NoDup (FileUpload.getMissingChunks d).
Proof.
  unfold FileUpload.getMissingChunks, FileUpload.isChunkUploaded. split.
  - intros i. rewrite list_elem_of_filter, elem_of_seqZ, Z.ltb_ge. lia.
  - apply NoDup_filter, NoDup_seqZ.
Qed.

(** [getMissingChunks] lists exactly the indices of [0, totalChunks) that
    [isChunkUploaded] does not report as uploaded, each of them once. *)
Theorem getMissingChunks_spec d :
  (∀ i, i ∈ FileUpload.getMissingChunks d
        ↔ 0 ≤ i < FileUpload.totalChunks d
          ∧ FileUpload.isChunkUploaded d i = false)
  ∧ NoDup (FileUpload.getMissingChunks d).
Proof. apply getMissingChunks_elem. Qed.

(** No chunk is missing exactly when the counter has reached
    [totalChunks] (or there is no chunk at all): the test of
    [completeUpload], [uploadedChunks = totalChunks], implies it. *)
Theorem getMissingChunks_nil_iff d :
  FileUpload.getMissingChunks d = []
  ↔ FileUpload.totalChunks d ≤ 0
    ∨ FileUpload.totalChunks d ≤ FileUpload.uploadedChunks d.
Proof.
  destruct (getMissingChunks_elem d) as [Hspec _].
  unfold FileUpload.isChunkUploaded in Hspec. split.
  - intros Hnil.
    destruct (decide (FileUpload.totalChunks d ≤ 0)) as [?|Hpos]; [by left|].
    right.
    destruct (decide (FileUpload.totalChunks d
                      ≤ FileUpload.uploadedChunks d)) as [?|Hlt]; [done|].
    exfalso.
    assert (Hin : FileUpload.totalChunks d - 1
                  ∈ FileUpload.getMissingChunks d).
    { apply Hspec. split; [lia|]. apply Z.ltb_ge. lia. }
    rewrite Hnil in Hin. by apply elem_of_nil in Hin.
  - intros Hor.
    destruct (FileUpload.getMissingChunks d) as [|i l] eqn:Hl; [done|].
    exfalso.
    assert (Hin : i ∈ i :: l) by apply list_elem_of_here.
    apply Hspec in Hin as [Hi Hup]. apply Z.ltb_ge in Hup. lia.
Qed.

(** ** The janitor *)

Lemma elem_of_findExpired expiresAt now w fileId :
  fileId ∈ findExpired expiresAt now w
  ↔ is_Some (db w !! fileId) ∧ expiresAt fileId < now.
Proof.
  unfold findExpired. rewrite list_elem_of_In, in_map_iff. split.
  - intros ([f d] & <- & Hin). apply list_elem_of_In in Hin.
    apply list_elem_of_filter in Hin as [Hlt Hin].
    apply elem_of_map_to_list in Hin. simpl in *. eauto.
  - intros [[d Hd] Hlt]. exists (fileId, d). split; [done|].
    apply list_elem_of_In, list_elem_of_filter. split; [done|].
    by apply elem_of_map_to_list.
Qed.

Lemma elem_of_findStale updatedAt now hours w fileId :
  fileId ∈ findStale updatedAt now hours w
  ↔ ∃ d, db w !! fileId = Some d
         ∧ (FileUpload.status d = pending ∨ FileUpload.status d = uploading)
         ∧ updatedAt fileId < now - hours * 60 * 60 * 1000.
Proof.
  unfold findStale, stale_status.
  rewrite list_elem_of_In, in_map_iff. split.
  - intros ([f d] & <- & Hin). apply list_elem_of_In in Hin.
    apply list_elem_of_filter in Hin as [[Hs Hlt] Hin].
    apply elem_of_map_to_list in Hin. simpl in *.
    exists d. repeat split; auto.
    apply orb_true_iff in Hs. by rewrite !Status_eqb_eq in Hs.
  - intros (d & Hd & Hs & Hlt). exists (fileId, d). split; [done|].
    apply list_elem_of_In, list_elem_of_filter. simpl. split.
    + split; [|done]. apply orb_true_iff. by rewrite !Status_eqb_eq.
    + by apply elem_of_map_to_list.
Qed.

(** What a sweep over [uploads] leaves: the uploads whose cleanup worked
    have neither document nor staging directory, everything else is as it
    was, and the count is the number of cleanups that worked. *)
Lemma sweepLoop_spec operation io uploads :
  ∀ cleanedCount w,
    ∃ w',
      sweepLoop operation io uploads cleanedCount w
      = (Return
           (cleanedCount
            + Z.of_nat (length (filter (fun f => rm_fails (io f) = false)
                                       uploads))),
         w')
      ∧ (∀ g, g ∈ uploads → rm_fails (io g) = false →
              db w' !! g = None ∧ uploadDir w' !! g = None)
      ∧ (∀ g, g ∉ uploads ∨ rm_fails (io g) = true →
              db w' !! g = db w !! g ∧ uploadDir w' !! g = uploadDir w !! g)
      ∧ gridChunks w' = gridChunks w ∧ gridFiles w' = gridFiles w
      ∧ immediates w' = immediates w.
Proof.
  induction uploads as [|f rest IH]; intros acc w.
  - exists w. simpl. unfold ret. rewrite Z.add_0_r.
    split; [done|]. split; [|done].
    intros x Hx. by apply elem_of_nil in Hx.
  - simpl. unfold cleanupChunks. unfold_async. simpl.
    rewrite filter_cons.
    destruct (rm_fails (io f)) eqn:Hf; simpl.
    + try rewrite decide_False by done.
      match goal with
      | |- context [sweepLoop _ _ _ ?a ?w1] =>
          destruct (IH a w1) as (w' & -> & Hgone & Hkept & Hc & Hg & Hq)
      end.
      exists w'. simpl in *.
      split; [done|]. split; [|split; [|done]].
      * intros x Hx Hio.
        apply elem_of_cons in Hx as [->|Hx]; [congruence|by apply Hgone].
      * intros x Hx. apply Hkept. destruct Hx as [Hn|?]; [left|by right].
        intros ?. apply Hn. by right.
    + try rewrite decide_True by done.
      match goal with
      | |- context [sweepLoop _ _ _ ?a ?w1] =>
          destruct (IH a w1) as (w' & -> & Hgone & Hkept & Hc & Hg & Hq)
      end.
      exists w'. simpl in *.
      split; [f_equal; f_equal; lia|]. split; [|split; [|done]].
      * intros x Hx Hio.
        apply elem_of_cons in Hx as [->|Hx]; [|by apply Hgone].
        destruct (decide (f ∈ rest)) as [Hin|Hnin]; [by apply Hgone|].
        destruct (Hkept f (or_introl Hnin)) as [-> ->].
        by rewrite !lookup_delete_eq.
      * intros x Hx.
        assert (Hne : x ≠ f).
        { destruct Hx as [Hn|Hr]; [|congruence].
          intros ->. apply Hn. by left. }
        destruct (Hkept x) as [-> ->].
        { destruct Hx as [Hn|?]; [left|by right].
          intros ?. apply Hn. by right. }
        by rewrite !lookup_delete_ne.
Qed.

(** On a collection whose ids are well formed (as in every reachable
    world) and with the query answered, [cleanupExpiredUploads] returns: a
    failed cleanup of one upload is logged and does not stop the sweep.
    Every session whose [expiresAt] lies in the past, whatever its status,
    loses its document and its staging directory when its cleanup works; a
    session whose cleanup fails keeps its document, and so does every
    session that has not expired.  The answer counts the sessions
    removed. *)
Theorem cleanupExpiredUploads_spec io expiresAt now w :
  (∀ f, is_Some (db w !! f) → fileId_wellformed f = true) →
  ∃ n w',
    cleanupExpiredUploads io expiresAt now w = (Return n, w')
    ∧ n = Z.of_nat (length (filter (fun f => rm_fails (io f) = false)
                                   (findExpired expiresAt now w)))
    ∧ (∀ f, is_Some (db w !! f) → expiresAt f < now →
            rm_fails (io f) = false →
            db w' !! f = None ∧ uploadDir w' !! f = None)
    ∧ (∀ f, now ≤ expiresAt f ∨ rm_fails (io f) = true →
            db w' !! f = db w !! f ∧ uploadDir w' !! f = uploadDir w !! f)
    ∧ gridChunks w' = gridChunks w ∧ gridFiles w' = gridFiles w.
Proof.
  intros _. unfold cleanupExpiredUploads, bind, get.
  destruct (sweepLoop_spec "cleanup expired upload" io
              (findExpired expiresAt now w) 0 w)
    as (w' & -> & Hgone & Hkept & ? & ? & _).
  eexists _, w'. split; [reflexivity|]. split; [done|].
  repeat split; auto.
  - apply Hgone; [|done]. by apply elem_of_findExpired.
  - apply Hgone; [|done]. by apply elem_of_findExpired.
  - apply Hkept. match goal with H : _ ∨ _ |- _ => destruct H as [?|?] end;
      [left|by right].
    rewrite elem_of_findExpired. lia.
  - apply Hkept. match goal with H : _ ∨ _ |- _ => destruct H as [?|?] end;
      [left|by right].
    rewrite elem_of_findExpired. lia.
Qed.

(** On a collection whose ids are well formed (as in every reachable
    world) and with the query answered, [cleanupStaleUploads] returns and
    only ever removes pending and uploading sessions: a session in any
    other status (processing, completed, failed, cancelled), however old,
    keeps its document and its staged chunks, and so does a session updated
    within the window; a pending or uploading session untouched for longer
    than the window is removed when its cleanup works. *)
Theorem cleanupStaleUploads_spec io updatedAt now hours w :
  (∀ f, is_Some (db w !! f) → fileId_wellformed f = true) →
  ∃ n w',
    cleanupStaleUploads io updatedAt now hours w = (Return n, w')
    ∧ (∀ f d, db w !! f = Some d →
              FileUpload.status d ≠ pending →
              FileUpload.status d ≠ uploading →
              db w' !! f = Some d ∧ uploadDir w' !! f = uploadDir w !! f)
    ∧ (∀ f d, db w !! f = Some d →
              FileUpload.status d = pending
              ∨ FileUpload.status d = uploading →
              updatedAt f < now - hours * 60 * 60 * 1000 →
              rm_fails (io f) = false →
              db w' !! f = None ∧ uploadDir w' !! f = None)
    ∧ (∀ f, now - hours * 60 * 60 * 1000 ≤ updatedAt f →
            db w' !! f = db w !! f ∧ uploadDir w' !! f = uploadDir w !! f).
Proof.
  intros _. unfold cleanupStaleUploads, bind, get.
  destruct (sweepLoop_spec "cleanup stale upload" io
              (findStale updatedAt now hours w) 0 w)
    as (w' & -> & Hgone & Hkept & _).
  eexists _, w'. split; [reflexivity|].
  split; [|split].
  - intros f d Hd Hs1 Hs2. destruct (Hkept f) as [-> ->]; [|done].
    left. rewrite elem_of_findStale. intros (d' & Hd' & [?|?] & _);
      congruence.
  - intros f d Hd Hs Hold Hio. apply Hgone; [|done].
    apply elem_of_findStale. eauto.
  - intros f Hrecent. apply Hkept. left.
    rewrite elem_of_findStale. intros (d' & _ & _ & ?). lia.
Qed.

Lemma orphanLoop_spec io (validFileIds : gset string) uploadDirs :
  ∀ cleanedCount w,
    NoDup uploadDirs →
    (∀ g, g ∈ uploadDirs → is_Some (uploadDir w !! g)) →
    ∃ w',
      orphanLoop io validFileIds uploadDirs cleanedCount w
      = (Return
           (cleanedCount
            + Z.of_nat
                (length (filter (fun g => (g ∉ validFileIds)
                                          ∧ rm_fails (io g) = false)
                                uploadDirs))),
         w')
      ∧ db w' = db w
      ∧ (∀ g, g ∈ uploadDirs → g ∉ validFileIds →
              rm_fails (io g) = false → uploadDir w' !! g = None)
      ∧ (∀ g, g ∉ uploadDirs ∨ g ∈ validFileIds ∨ rm_fails (io g) = true →
              uploadDir w' !! g = uploadDir w !! g)
      ∧ gridChunks w' = gridChunks w ∧ gridFiles w' = gridFiles w
      ∧ immediates w' = immediates w.
Proof.
  induction uploadDirs as [|dir rest IH]; intros acc w Hnd Hex.
  - exists w. simpl. unfold ret. rewrite Z.add_0_r.
    split; [done|]. split; [done|]. split; [|done].
    intros x Hx. by apply elem_of_nil in Hx.
  - apply NoDup_cons in Hnd as [Hnin Hnd].
    simpl. rewrite filter_cons. case_bool_decide as Hvalid.
    + rewrite decide_False by (intros [? _]; done).
      destruct (IH acc w Hnd) as (w' & -> & Hdb & Hgone & Hkept & ?).
      { intros x Hx. apply Hex. by right. }
      exists w'. split; [done|]. split; [done|]. split; [|split; [|done]].
      * intros x Hx Hv Hio.
        apply elem_of_cons in Hx as [->|Hx]; [done|by apply Hgone].
      * intros x Hx. apply Hkept.
        destruct Hx as [Hn|Hx]; [left|by right].
        intros ?. apply Hn. by right.
    + unfold_async. simpl.
      destruct (Hex dir) as [content Hdir]; [by left|]. rewrite Hdir.
      destruct (rm_fails (io dir)) eqn:Hio; simpl.
      * rewrite decide_False by (intros [_ ?]; done).
        match goal with
        | |- context [orphanLoop _ _ _ ?a ?w1] =>
            destruct (IH a w1 Hnd) as (w' & -> & Hdb & Hgone & Hkept & ?)
        end.
        { intros x Hx. simpl. apply Hex. by right. }
        exists w'. simpl in *.
        split; [done|]. split; [done|]. split; [|split; [|done]].
        -- intros x Hx Hv Hio'.
           apply elem_of_cons in Hx as [->|Hx]; [congruence|by apply Hgone].
        -- intros x Hx. apply Hkept.
           destruct Hx as [Hn|Hx]; [left|by right].
           intros ?. apply Hn. by right.
      * rewrite decide_True by done.
        match goal with
        | |- context [orphanLoop _ _ _ ?a ?w1] =>
            destruct (IH a w1 Hnd) as (w' & -> & Hdb & Hgone & Hkept & ?)
        end.
        { intros x Hx. simpl. rewrite lookup_delete_ne by congruence.
          apply Hex. by right. }
        exists w'. simpl in *.
        split; [f_equal; f_equal; lia|]. split; [done|].
        split; [|split; [|done]].
        -- intros x Hx Hv Hio'.
           apply elem_of_cons in Hx as [->|Hx]; [|by apply Hgone].
           rewrite Hkept by (by left). by rewrite lookup_delete_eq.
        -- intros x Hx.
           assert (Hne : x ≠ dir).
           { destruct Hx as [Hn|[?|?]]; [|congruence..].
             intros ->. apply Hn. by left. }
           rewrite Hkept.
           { by rewrite lookup_delete_ne. }
           destruct Hx as [Hn|Hx]; [left|by right].
           intros ?. apply Hn. by right.
Qed.

(** What the orphan sweep leaves. *)
Lemma cleanupOrphanedChunks_outcome io w :
  ∃ n w',
    cleanupOrphanedChunks io w = (Return n, w')
    ∧ db w' = db w
    ∧ n = Z.of_nat
            (length (filter (fun g => db w !! g = None
                                      ∧ rm_fails (io g) = false)
                            (map fst (map_to_list (uploadDir w)))))
    ∧ (∀ g, is_Some (db w !! g) → uploadDir w' !! g = uploadDir w !! g)
    ∧ (∀ g, db w !! g = None → rm_fails (io g) = false →
            uploadDir w' !! g = None)
    ∧ (∀ g, rm_fails (io g) = true → uploadDir w' !! g = uploadDir w !! g).
Proof.
  unfold cleanupOrphanedChunks, bind, get.
  assert (Hin : ∀ g, g ∈ map fst (map_to_list (uploadDir w))
                     ↔ is_Some (uploadDir w !! g)).
  { intros g. rewrite list_elem_of_In, in_map_iff. split.
    - intros ([f c] & <- & Hfc). apply list_elem_of_In in Hfc.
      apply elem_of_map_to_list in Hfc. simpl. eauto.
    - intros [c Hc]. exists (g, c). split; [done|].
      by apply list_elem_of_In, elem_of_map_to_list. }
  destruct (orphanLoop_spec io (dom (db w))
              (map fst (map_to_list (uploadDir w))) 0 w)
    as (w' & -> & Hdb & Hgone & Hkept & _).
  { apply NoDup_fst_map_to_list. }
  { intros g. apply Hin. }
  eexists _, w'. split; [reflexivity|]. split; [done|]. split.
  { rewrite Z.add_0_l. do 2 f_equal. apply list_filter_iff. intros g.
    rewrite elem_of_dom, <- eq_None_not_Some. done. }
  split; [|split].
  - intros g Hg. apply Hkept. right. left. by apply elem_of_dom.
  - intros g Hnone Hio.
    destruct (uploadDir w !! g) as [c|] eqn:Hc.
    + apply Hgone; [apply Hin; by rewrite Hc| |done].
      rewrite elem_of_dom, Hnone. by intros [? ?].
    + rewrite Hkept; [done|]. left. rewrite Hin, Hc. by intros [? ?].
  - intros g Hio. apply Hkept. by right; right.
Qed.

(** With the directory listed and the query answered,
    [cleanupOrphanedChunks] returns and never touches a document.  A
    staging directory whose name is the id of a document is left as it is;
    a directory without document is removed when [fs.rm] works and kept
    when it fails; the answer counts the directories removed. *)
Theorem cleanupOrphanedChunks_spec io w :
  ∃ n w',
    cleanupOrphanedChunks io w = (Return n, w')
    ∧ db w' = db w
    ∧ n = Z.of_nat
            (length (filter (fun g => db w !! g = None
                                      ∧ rm_fails (io g) = false)
                            (map fst (map_to_list (uploadDir w)))))
    ∧ (∀ g, is_Some (db w !! g) → uploadDir w' !! g = uploadDir w !! g)
    ∧ (∀ g, db w !! g = None → rm_fails (io g) = false →
            uploadDir w' !! g = None)
    ∧ (∀ g, rm_fails (io g) = true → uploadDir w' !! g = uploadDir w !! g).
Proof. apply cleanupOrphanedChunks_outcome. Qed.

(** After an orphan sweep in which [fs.rm] works, every staging directory
    belongs to a session with a document. *)
Theorem cleanupOrphanedChunks_leaves_no_orphan io w g :
  (∀ f, rm_fails (io f) = false) →
  is_Some (uploadDir (snd (cleanupOrphanedChunks io w)) !! g) →
  is_Some (db (snd (cleanupOrphanedChunks io w)) !! g).
Proof.
  intros Hio.
  destruct (cleanupOrphanedChunks_outcome io w)
    as (n & w' & -> & Hdb & _ & _ & Hgone & _).
  simpl. rewrite Hdb. intros Hdir.
  destruct (db w !! g) eqn:Hg; [done|].
  rewrite (Hgone g Hg (Hio g)) in Hdir. by destruct Hdir.
Qed.

(** ** What a step can and cannot do *)



(** In every world the system can reach, every stored session has a
    well-formed id, a counter that is not negative and at least one chunk
    to receive; and a completed session has a counter that reached
    [totalChunks]. *)
Theorem reachable_sessions_wellformed cfg w fileId d :
  reachable cfg w →
  db w !! fileId = Some d →
  fileId_wellformed fileId = true
  ∧ 0 ≤ FileUpload.uploadedChunks d
  ∧ 1 ≤ FileUpload.totalChunks d
  ∧ (FileUpload.status d = completed →
     FileUpload.totalChunks d ≤ FileUpload.uploadedChunks d).
Proof.
  intros Hw Hd.
  destruct (reachable_Inv _ _ Hw _ _ Hd) as (? & ? & ? & Himp).
  repeat split; auto.
Qed.


(** A merge callback that finds no document for its id (the session was
    deleted in the meantime) changes nothing but the log. *)
Theorem mergeTask_without_document io fileId w :
  db w !! fileId = None →
  let w' := snd (mergeTask io fileId w) in
  db w' = db w ∧ uploadDir w' = uploadDir w
  ∧ gridChunks w' = gridChunks w ∧ gridFiles w' = gridFiles w
  ∧ nextObjectId w' = nextObjectId w ∧ immediates w' = immediates w.
Proof.
  intros Hnone.
  unfold mergeTask, mergeChunks, mergeFailure.
  unfold_async. simpl. rewrite Hnone. simpl. rewrite Hnone. simpl.
  by rewrite Hnone.
Qed.

(** ** Sessions do not interfere *)

Section Isolation.
Variable fileId : string.

Lemma isolated_ret {A} (a : A) : isolated fileId (ret a).
Proof. by intros w g Hg. Qed.

Lemma isolated_throw {A} e : isolated fileId (@throw A e).
Proof. by intros w g Hg. Qed.

Lemma isolated_get {A} (f : World → A) : isolated fileId (get f).
Proof. by intros w g Hg. Qed.

Lemma isolated_bind {A B} (m : Async A) (k : A → Async B) :
  isolated fileId m → (∀ a, isolated fileId (k a)) →
  isolated fileId (bind m k).
Proof.
  intros Hm Hk w g Hg. unfold bind.
  specialize (Hm w g Hg). destruct (m w) as [[a|e] w1]; simpl in *.
  - destruct (Hk a w1 g Hg) as [-> ->]. done.
  - done.
Qed.

Lemma isolated_try_catch {A} (m : Async A) (h : Error → Async A) :
  isolated fileId m → (∀ e, isolated fileId (h e)) →
  isolated fileId (try_catch m h).
Proof.
  intros Hm Hh w g Hg. unfold try_catch.
  specialize (Hm w g Hg). destruct (m w) as [[a|e] w1]; simpl in *.
  - done.
  - destruct (Hh e w1 g Hg) as [-> ->]. done.
Qed.

(** A change of the world that keeps the documents and the staged
    chunks of the other sessions. *)
Lemma isolated_modify (f : World → World) :
  (∀ w g, g ≠ fileId →
          db (f w) !! g = db w !! g
          ∧ uploadDir (f w) !! g = uploadDir w !! g) →
  isolated fileId (modify f).
Proof. intros Hf w g Hg. by apply Hf. Qed.

Lemma isolated_logUpload f action meta :
  isolated fileId (logUpload f action meta).
Proof. by intros w g Hg. Qed.

Lemma isolated_logUploadError operation e f :
  isolated fileId (logUploadError operation e f).
Proof. by intros w g Hg. Qed.

Lemma isolated_setImmediate task : isolated fileId (setImmediate task).
Proof. by intros w g Hg. Qed.

Lemma isolated_validateFileId f : isolated fileId (validateFileId f).
Proof. intros w g Hg. unfold validateFileId. by case_match. Qed.

Lemma isolated_validateChunkIndex i n :
  isolated fileId (validateChunkIndex i n).
Proof. intros w g Hg. unfold validateChunkIndex. by case_match. Qed.

Lemma isolated_findOneAndUpdate c u b :
  isolated fileId (findOneAndUpdate fileId c u b).
Proof.
  intros w g Hg. unfold findOneAndUpdate.
  repeat case_match; simpl; by rewrite ?lookup_insert_ne.
Qed.

Lemma isolated_deleteOne : isolated fileId (deleteOne fileId).
Proof.
  intros w g Hg. unfold deleteOne, modify. simpl.
  by rewrite lookup_delete_ne.
Qed.

Lemma isolated_save cfg d : isolated fileId (save cfg fileId d).
Proof.
  intros w g Hg. unfold save.
  repeat case_match; simpl; by rewrite ?lookup_insert_ne.
Qed.

Lemma isolated_saveChunk io i data :
  isolated fileId (saveChunk io fileId i data).
Proof.
  intros w g Hg. unfold saveChunk, chunkDir, bind, modify, throw. simpl.
  destruct (writeFile_fails io); simpl;
    destruct (uploadDir w !! fileId); simpl;
    by rewrite ?lookup_insert_ne.
Qed.

Lemma isolated_deleteChunk io i : isolated fileId (deleteChunk io fileId i).
Proof.
  intros w g Hg. unfold deleteChunk.
  repeat case_match; simpl; by rewrite ?lookup_insert_ne.
Qed.

Lemma isolated_cleanupChunks io : isolated fileId (cleanupChunks io fileId).
Proof.
  intros w g Hg. unfold cleanupChunks, bind, modify, throw, logUpload.
  case_match; simpl; by rewrite ?lookup_delete_ne.
Qed.

Lemma isolated_verifyChunks f n : isolated fileId (verifyChunks f n).
Proof. intros w g Hg. unfold verifyChunks. by case_match. Qed.

Lemma isolated_sanitizeFileName n : isolated fileId (sanitizeFileName n).
Proof. intros w g Hg. unfold sanitizeFileName. by case_match. Qed.

Lemma isolated_validateFileData cfg fd :
  isolated fileId (validateFileData cfg fd).
Proof. intros w g Hg. unfold validateFileData. by repeat case_match. Qed.

Lemma isolated_openUploadStream file :
  isolated fileId (openUploadStream file).
Proof. by intros w g Hg. Qed.

Lemma isolated_write s bytes : isolated fileId (write s bytes).
Proof. by intros w g Hg. Qed.

Lemma isolated_end_and_finish io s : isolated fileId (end_and_finish io s).
Proof. intros w g Hg. unfold end_and_finish. by case_match. Qed.

Lemma isolated_abort s : isolated fileId (abort s).
Proof. intros w g Hg. unfold abort. by case_match. Qed.

Lemma isolated_bucket_delete id : isolated fileId (bucket_delete id).
Proof. by intros w g Hg. Qed.
End Isolation.

Create HintDb isolation.
#[local] Hint Resolve isolated_ret isolated_throw isolated_get
  isolated_logUpload isolated_logUploadError isolated_setImmediate
  isolated_validateFileId isolated_validateChunkIndex
  isolated_findOneAndUpdate isolated_deleteOne isolated_save
  isolated_saveChunk isolated_deleteChunk isolated_cleanupChunks
  isolated_verifyChunks isolated_sanitizeFileName isolated_validateFileData
  isolated_openUploadStream isolated_write isolated_end_and_finish
  isolated_abort isolated_bucket_delete : isolation.

Ltac isolate :=
  repeat first
    [ solve [auto with isolation]
    | apply isolated_bind
    | apply isolated_try_catch
    | match goal with |- ∀ _, _ => intro end
    | match goal with |- isolated _ _ => case_match end ].

Lemma isolated_mergeLoop fileId totalChunks s indices acc :
  isolated fileId (mergeLoop fileId totalChunks s indices acc).
Proof.
  revert acc. induction indices as [|i rest IH]; intros acc; simpl.
  - apply isolated_ret.
  - apply isolated_bind; [|auto]. unfold mergeOne. isolate.
Qed.

Lemma isolated_mergeTask io fileId : isolated fileId (mergeTask io fileId).
Proof.
  pose proof (isolated_mergeLoop fileId) as Hloop.
  unfold mergeTask, mergeChunks, mergeFailure, findByFileId,
    markAsCompleted.
  isolate.
Qed.

Lemma isolated_uploadChunk io fileId chunkIndex chunkData totalChunks :
  isolated fileId (uploadChunk io fileId chunkIndex chunkData totalChunks).
Proof. unfold uploadChunk, findByFileId. isolate. Qed.

Lemma isolated_completeUpload fileId : isolated fileId (completeUpload fileId).
Proof. unfold completeUpload, findByFileId, markAsProcessing. isolate. Qed.

Lemma isolated_cancelUpload fileId : isolated fileId (cancelUpload fileId).
Proof. unfold cancelUpload, findByFileId, markAsCancelled. isolate. Qed.

Lemma isolated_deleteFile io fileId : isolated fileId (deleteFile io fileId).
Proof. unfold deleteFile, findByFileId. isolate. Qed.

Lemma isolated_initializeUpload cfg generated fileData uploadedBy :
  isolated generated (initializeUpload cfg generated fileData uploadedBy).
Proof. unfold initializeUpload. isolate. Qed.

Lemma isolated_cleanupTask io fileId : isolated fileId (cleanupTask io fileId).
Proof. unfold cleanupTask. isolate. Qed.

Lemma isolated_sweepOne io fileId : isolated fileId (sweepOne io fileId).
Proof. unfold sweepOne. isolate. Qed.

(** Sessions do not interfere: a step about one session with a
    well-formed id (a call of the service for its id, the janitor or the TTL
    index removing it, a queued callback of it) leaves the document and the
    staged chunks of every other session exactly as they were. *)
Theorem exec_isolation cfg op w g :
  (∀ f, target op w = Some f → fileId_wellformed f = true) →
  target op w ≠ Some g →
  db (exec cfg op w) !! g = db w !! g
  ∧ uploadDir (exec cfg op w) !! g = uploadDir w !! g.
Proof.
  intros _ Ht.
  destruct op; simpl in *.
  - apply isolated_initializeUpload. congruence.
  - apply isolated_uploadChunk. congruence.
  - apply isolated_completeUpload. congruence.
  - apply isolated_cancelUpload. congruence.
  - apply isolated_deleteFile. congruence.
  - apply isolated_sweepOne. congruence.
  - apply (isolated_deleteOne fileId). congruence.
  - unfold runImmediate.
    destruct (immediates w !! k) as [[f|f]|]; simpl in *; [| |done].
    + destruct (isolated_mergeTask io f (set_immediates (delete k) w) g)
        as [-> ->]; [congruence|done].
    + destruct (isolated_cleanupTask io f (set_immediates (delete k) w) g)
        as [-> ->]; [congruence|done].
Qed.

(** A merge of a session that was not completed returns only if every
    chunk file [chunk-0 .. chunk-(totalChunks-1)] was staged; and then the
    staging directory of the session is removed, the session is completed
    with the files id of the new object, and that object has its files
    document. *)
Theorem mergeChunks_returns_only_when_complete io fileId w d w' :
  fileId_wellformed fileId = true →
  db w !! fileId = Some d →
  FileUpload.status d ≠ completed →
  mergeChunks io fileId w = (Return tt, w') →
  (∀ i, 0 ≤ i < FileUpload.totalChunks d →
        is_Some (chunkDir fileId w !! i))
  ∧ uploadDir w' !! fileId = None
  ∧ is_Some (gridFiles w' !! nextObjectId w)
  ∧ db w' !! fileId
    = Some (FileUpload.set_gridFsId (nextObjectId w)
              (FileUpload.set_status completed d)).
Proof.
  intros _ Hd Hs. apply Status_eqb_neq in Hs.
  unfold mergeChunks, mergeFailure, openUploadStream, end_and_finish,
    cleanupChunks, abort.
  unfold_async. simpl. rewrite Hd, Hs. simpl.
  destruct (uploadDir w !! fileId) as [dir|] eqn:Hdir; simpl;
    [|rewrite ?Hd; done].
  destruct (connected io); simpl; [|rewrite ?Hd; done].
  match goal with
  | |- context [mergeLoop ?f ?t ?s ?idx ?a ?w1] =>
      destruct (mergeLoop_world f t s idx a w1) as (r & g & l & Hloop & _);
      assert (Hmiss :
        ∀ i, 0 ≤ i < FileUpload.totalChunks d →
             chunkDir fileId w !! i = None → ∃ e, r = Throw e)
  end.
  { intros i Hi Hnone.
    edestruct mergeLoop_missing as (e & w0 & He & _);
      [ | | rewrite He in Hloop ].
    - apply elem_of_seqZ. split; [apply Hi|]. lia.
    - unfold chunkDir in *. simpl. exact Hnone.
    - eexists. by simplify_eq. }
  rewrite Hloop. clear Hloop. simpl.
  destruct r as [a|e]; simpl; [|rewrite ?Hd; done].
  destruct (finish_fails io); simpl; [rewrite ?Hd; done|].
  destruct (1024 <? Z.abs (a - FileUpload.size d)); simpl;
    rewrite ?Hd; simpl.
  all: unfold findOneAndUpdate; simpl; rewrite ?Hd; simpl.
  all: destruct (rm_fails io); simpl; rewrite ?lookup_insert_eq; simpl;
    [discriminate|].
  all: intros [= <-]; simpl.
  all: rewrite lookup_delete_eq, !lookup_insert_eq.
  all: split; [|by eauto].
  all: intros i Hi; destruct (chunkDir fileId w !! i) eqn:Hc; [by eauto|].
  all: by destruct (Hmiss i Hi Hc).
Qed.

(** ** Instances *)

(** ** The further properties at concrete sessions *)

Lemma sanitizeFileName_safe_witness :
  emptyWorld = emptyWorld
  ∧ "my_file.txt" ≠ ""
  ∧ forallb safe_char (list_ascii_of_string "my_file.txt") = true.
Proof.
  apply (sanitizeFileName_safe "dir/my file.txt" emptyWorld).
  vm_compute. reflexivity.
Defined.

Lemma sanitizeFileName_idempotent_witness :
  sanitizeFileName "my_file.txt" emptyWorld
  = (Return "my_file.txt", emptyWorld).
Proof.
  apply (sanitizeFileName_idempotent "dir/my file.txt" emptyWorld
           "my_file.txt" emptyWorld).
  vm_compute. reflexivity.
Defined.

Lemma initializeUpload_failure_creates_nothing_witness :
  let w' := snd (initializeUpload cfg0 idB (mkFileData "b.bin" 0 "" 2)
                   "anonymous" w_partial) in
  db w' = db w_partial ∧ uploadDir w' = uploadDir w_partial
  ∧ immediates w' = immediates w_partial.
Proof.
  apply (initializeUpload_failure_creates_nothing cfg0 idB
           (mkFileData "b.bin" 0 "" 2) "anonymous" w_partial
           (mkError ValidationError "Invalid file data")).
  vm_compute. reflexivity.
Defined.

Lemma initializeUpload_refuses_bad_sizes_witness :
  ∃ e w',
    initializeUpload cfg0 idA (mkFileData "a.bin" 6000000000 "" 3)
      "anonymous" emptyWorld = (Throw e, w')
    ∧ db w' = db emptyWorld.
Proof.
  apply initializeUpload_refuses_bad_sizes. left. simpl. lia.
Defined.

Lemma initializeUpload_creates_pending_witness :
  fileId_wellformed idA = true ∧ db emptyWorld !! idA = None.
Proof.
  destruct (initializeUpload_creates_pending cfg0 idA
              (mkFileData "a.bin" 6 "" 3) "anonymous" emptyWorld idA
              (exec cfg0 open3 emptyWorld))
    as (_ & Hwf & Hnone & _).
  - vm_compute. reflexivity.
  - split; assumption.
Defined.

Lemma initializeUpload_then_getUploadStatus_witness :
  ∃ view,
    getUploadStatus idA (exec cfg0 open3 emptyWorld)
    = (Return view, exec cfg0 open3 emptyWorld)
    ∧ sv_fileId view = idA
    ∧ sv_status view = pending
    ∧ sv_uploadedChunks view = 0
    ∧ sv_totalChunks view = 3
    ∧ sv_size view = 6
    ∧ sv_errorMessage view = None.
Proof.
  apply (initializeUpload_then_getUploadStatus cfg0 idA
           (mkFileData "a.bin" 6 "" 3) "anonymous" emptyWorld idA
           (exec cfg0 open3 emptyWorld)).
  vm_compute. reflexivity.
Defined.

Lemma uploadChunk_failure_discards_chunk_witness :
  chunkDir idA w_processing !! 1 = Some bytesB
  ∧ chunkDir idA w_chunk_lost !! 1 = None
  ∧ db w_chunk_lost = db w_processing.
Proof.
  split; [vm_compute; reflexivity|].
  apply (uploadChunk_failure_discards_chunk noFaults idA 1 bytesB 1
           w_processing (mkError ValidationError "Invalid chunk index")
           w_chunk_lost).
  - vm_compute. reflexivity.
  - vm_compute. reflexivity.
  - reflexivity.
Defined.

Lemma uploadChunk_early_errors_witness :
  fst (uploadChunk noFaults idA 0 bytesA 3 emptyWorld)
  = Throw (mkError NotFoundError "Upload session").
Proof.
  apply (proj2 (proj2 (uploadChunk_early_errors noFaults idA 0 bytesA 3
                         emptyWorld))).
  - vm_compute. reflexivity.
  - lia.
  - reflexivity.
Defined.

Lemma uploadChunk_stages_bytes_witness :
  let w' := snd (uploadChunk noFaults idA 1 bytesB 3 w_partial) in
  chunkDir idA w' = <[1 := bytesB]> (chunkDir idA w_partial)
  ∧ db w'
    = <[idA := FileUpload.set_status uploading
                 (FileUpload.set_uploadedChunks (1 + 1)
                    (doc3 uploading 1 None))]>
        (db w_partial).
Proof.
  apply (uploadChunk_stages_bytes noFaults idA 1 bytesB 3 w_partial
           (doc3 uploading 1 None)).
  - vm_compute. reflexivity.
  - vm_compute. reflexivity.
  - lia.
  - simpl. discriminate.
  - simpl. discriminate.
  - simpl. lia.
  - reflexivity.
Defined.


Lemma completeUpload_hands_off_iff_witness :
  fst (completeUpload idA w_uploaded)
  = Return (mkCompleteResult "Upload completed, processing file..."
              processing)
  ↔ uploading ≠ completed
    ∧ 3 = 3
    ∧ ∀ i, 0 ≤ i < 3 → is_Some (chunkDir idA w_uploaded !! i).
Proof.
  apply (completeUpload_hands_off_iff idA w_uploaded (doc3 uploading 3 None)).
  - vm_compute. reflexivity.
  - vm_compute. reflexivity.
Defined.

Lemma completeUpload_hand_off_effect_witness :
  ∃ d, db w_uploaded !! idA = Some d
       ∧ db w_processing
         = <[idA := FileUpload.set_status processing d]> (db w_uploaded)
       ∧ immediates w_processing
         = (immediates w_uploaded ++ [MergeChunksTask idA])%list
       ∧ uploadDir w_processing = uploadDir w_uploaded
       ∧ gridChunks w_processing = gridChunks w_uploaded
       ∧ gridFiles w_processing = gridFiles w_uploaded.
Proof.
  apply (completeUpload_hand_off_effect idA w_uploaded w_processing).
  vm_compute. reflexivity.
Defined.

Lemma completeUpload_failure_changes_nothing_witness :
  snd (completeUpload idA w_partial)
  = add_log
      (logUploadError_entry "complete upload"
         (mkError UploadError "Incomplete upload: 1/3 chunks received") idA)
      w_partial.
Proof.
  apply (completeUpload_failure_changes_nothing idA w_partial
           (mkError UploadError "Incomplete upload: 1/3 chunks received")).
  vm_compute. reflexivity.
Defined.

Lemma cancelUpload_effect_witness :
  ∃ w',
    cancelUpload idA w_partial = (Return tt, w')
    ∧ db w'
      = <[idA := FileUpload.set_status cancelled (doc3 uploading 1 None)]>
          (db w_partial)
    ∧ immediates w'
      = (immediates w_partial ++ [CleanupChunksTask idA])%list
    ∧ uploadDir w' = uploadDir w_partial.
Proof.
  apply (cancelUpload_effect idA w_partial (doc3 uploading 1 None)).
  - vm_compute. reflexivity.
  - vm_compute. reflexivity.
  - simpl. discriminate.
Defined.

Lemma cancelUpload_then_cleanup_witness :
  let w1 := snd (cancelUpload idA w_partial) in
  let w2 := snd (runImmediate noFaults (length (immediates w_partial)) w1) in
  uploadDir w2 !! idA = None
  ∧ db w2 !! idA
    = Some (FileUpload.set_status cancelled (doc3 uploading 1 None))
  ∧ immediates w2 = immediates w_partial.
Proof.
  apply (cancelUpload_then_cleanup noFaults idA w_partial
           (doc3 uploading 1 None)).
  - vm_compute. reflexivity.
  - vm_compute. reflexivity.
  - simpl. discriminate.
  - reflexivity.
Defined.

Lemma deleteFile_removes_everything_witness :
  ∃ w',
    deleteFile noFaults idA w_completed = (Return tt, w')
    ∧ db w' = delete idA (db w_completed)
    ∧ uploadDir w' = delete idA (uploadDir w_completed)
    ∧ (∀ id, Some 0%nat = Some id →
             readBlob id w' = None ∧ gridChunks w' !! id = None)
    ∧ ∃ e w'', getUploadStatus idA w' = (Throw e, w'')
               ∧ name e = NotFoundError.
Proof.
  apply (deleteFile_removes_everything noFaults idA w_completed
           (doc3 completed 3 (Some 0%nat))).
  - vm_compute. reflexivity.
  - vm_compute. reflexivity.
  - reflexivity.
  - reflexivity.
Defined.

Lemma deleteFile_cleanup_failure_loses_object_witness :
  readBlob 0 w_completed = Some (bytesA ++ bytesB ++ bytesC)%list
  ∧ ∃ e w',
      deleteFile rmFails idA w_completed = (Throw e, w')
      ∧ db w' !! idA = Some (doc3 completed 3 (Some 0%nat))
      ∧ uploadDir w' = uploadDir w_completed
      ∧ readBlob 0 w' = None.
Proof.
  split; [vm_compute; reflexivity|].
  apply (deleteFile_cleanup_failure_loses_object rmFails idA w_completed
           (doc3 completed 3 (Some 0%nat)) 0%nat).
  - vm_compute. reflexivity.
  - vm_compute. reflexivity.
  - reflexivity.
  - reflexivity.
  - reflexivity.
Defined.

Lemma reachable_w_two : reachable cfg0 w_two.
Proof.
  unfold w_two. apply reachable_run; [exact reachable_w_completed|].
  vm_compute. reflexivity.
Qed.

Lemma w_two_ids f : is_Some (db w_two !! f) → fileId_wellformed f = true.
Proof.
  intros [d Hd]. by destruct (reachable_Inv _ _ reachable_w_two _ _ Hd).
Qed.

Lemma cleanupExpiredUploads_spec_witness :
  ∃ n w',
    cleanupExpiredUploads (everywhere noFaults) (fun _ => 100) 200 w_two
    = (Return n, w')
    ∧ db w' !! idA = None ∧ uploadDir w' !! idB = None.
Proof.
  destruct (cleanupExpiredUploads_spec (everywhere noFaults) (fun _ => 100)
              200 w_two w_two_ids) as (n & w' & H & _ & Hgone & _).
  exists n, w'. split; [exact H|]. split.
  - apply (Hgone idA); [eexists; vm_compute; reflexivity|lia|reflexivity].
  - apply (Hgone idB); [eexists; vm_compute; reflexivity|lia|reflexivity].
Defined.

Lemma cleanupStaleUploads_spec_witness :
  ∃ n w',
    cleanupStaleUploads (everywhere noFaults) (fun _ => 0) 100000000 2 w_two
    = (Return n, w')
    ∧ db w' !! idA = Some (doc3 completed 3 (Some 0%nat))
    ∧ db w' !! idB = None.
Proof.
  destruct (cleanupStaleUploads_spec (everywhere noFaults) (fun _ => 0)
              100000000 2 w_two w_two_ids)
    as (n & w' & H & Hkept & Hgone & _).
  exists n, w'. split; [exact H|]. split.
  - apply (Hkept idA (doc3 completed 3 (Some 0%nat)));
      [vm_compute; reflexivity|simpl; discriminate..].
  - refine (proj1 (Hgone idB
              (FileUpload.mk "b.bin" "application/octet-stream" 4 1 2
                 uploading None "anonymous" None 0) _ _ _ _)).
    + vm_compute. reflexivity.
    + right. reflexivity.
    + simpl. lia.
    + reflexivity.
Defined.

Lemma cleanupOrphanedChunks_spec_witness :
  ∃ n w',
    cleanupOrphanedChunks (everywhere noFaults)
      (set_db (delete idB) w_two) = (Return n, w')
    ∧ uploadDir w' !! idB = None.
Proof.
  destruct (cleanupOrphanedChunks_spec (everywhere noFaults)
              (set_db (delete idB) w_two))
    as (n & w' & H & _ & _ & _ & Hgone & _).
  exists n, w'. split; [exact H|].
  apply Hgone; [vm_compute; reflexivity|reflexivity].
Defined.


Lemma reachable_sessions_wellformed_witness :
  fileId_wellformed idA = true
  ∧ 0 ≤ 1
  ∧ 1 ≤ 3
  ∧ (uploading = completed → 3 ≤ 1).
Proof.
  apply (reachable_sessions_wellformed cfg0 w_partial idA
           (doc3 uploading 1 None)).
  - exact reachable_w_partial.
  - vm_compute. reflexivity.
Defined.


Lemma exec_isolation_witness :
  db (exec cfg0 (Delete noFaults idA) w_two) !! idB = db w_two !! idB
  ∧ uploadDir (exec cfg0 (Delete noFaults idA) w_two) !! idB
    = uploadDir w_two !! idB.
Proof.
  apply exec_isolation.
  - simpl. intros f [= <-]. vm_compute. reflexivity.
  - simpl. discriminate.
Defined.

Lemma uploadedChunks_monotone_witness :
  3 = 3 ∧ 1 ≤ 2.
Proof.
  apply (uploadedChunks_monotone cfg0 (submit 1 bytesB 3) w_partial idA
           (doc3 uploading 1 None) (doc3 uploading 2 None)).
  - vm_compute. reflexivity.
  - vm_compute. reflexivity.
Defined.

Lemma mergeChunks_returns_only_when_complete_witness :
  let w' := snd (mergeChunks noFaults idA w_processing) in
  (∀ i, 0 ≤ i < 3 → is_Some (chunkDir idA w_processing !! i))
  ∧ uploadDir w' !! idA = None
  ∧ is_Some (gridFiles w' !! nextObjectId w_processing)
  ∧ db w' !! idA
    = Some (FileUpload.set_gridFsId (nextObjectId w_processing)
              (FileUpload.set_status completed (doc3 processing 3 None))).
Proof.
  apply (mergeChunks_returns_only_when_complete noFaults idA w_processing
           (doc3 processing 3 None)).
  - vm_compute. reflexivity.
  - vm_compute. reflexivity.
  - simpl. discriminate.
  - vm_compute. reflexivity.
Defined.
